(** * apkdig: the AXML resource-id codec and chunk-stream reader

    A shallow embedding of [axml/resourceidsblock.go] (the resource-id
    block codec) and of [ReadAXML] (the chunk walker), with the parts of
    Go's [encoding/binary], [bytes], [io] and [unicode/utf16] they call.

    Conventions:
    - a [uint32], [uint16] or [int64] is a [Z]; wrap-around is written
      out with [u32];
    - a byte is a [Byte.byte], a Go [string] is a [String.string] holding
      its UTF-8 bytes;
    - a method that mutates its receiver returns the receiver's new value;
    - a reader is threaded through as explicit state. *)

From Stdlib Require Import ZArith Lia Bool.
From Stdlib Require Import Strings.Byte Strings.String.
From stdpp Require Import base list.

Local Open Scope Z_scope.

(** ** Machine integers and bytes *)

(** Reduction to an unsigned 32-bit value. *)
Definition u32 (z : Z) : Z := z mod 2 ^ 32.

Definition is_u32 (z : Z) : Prop := 0 <= z < 2 ^ 32.

(** Go's conversion [byte(v)]: the low eight bits. *)
Definition byte_of_Z (z : Z) : byte :=
  match Byte.of_N (Z.to_N (z mod 256)) with
  | Some b => b
  | None => x00
  end.

Definition Z_of_byte (b : byte) : Z := Z.of_N (Byte.to_N b).

(** [binary.LittleEndian.PutUint32] and [PutUint16]. *)
Definition PutUint32 (v : Z) : list byte :=
  [byte_of_Z v; byte_of_Z (Z.shiftr v 8);
   byte_of_Z (Z.shiftr v 16); byte_of_Z (Z.shiftr v 24)].

Definition PutUint16 (v : Z) : list byte :=
  [byte_of_Z v; byte_of_Z (Z.shiftr v 8)].

(** [binary.LittleEndian.Uint32] and [Uint16]; the callers below always
    pass a slice of exactly four (two) bytes. *)
Definition Uint32 (bs : list byte) : Z :=
  match bs with
  | [b0; b1; b2; b3] =>
      Z.lor (Z.lor (Z.lor (Z_of_byte b0) (Z.shiftl (Z_of_byte b1) 8))
                   (Z.shiftl (Z_of_byte b2) 16))
            (Z.shiftl (Z_of_byte b3) 24)
  | _ => 0
  end.

Definition Uint16 (bs : list byte) : Z :=
  match bs with
  | [b0; b1] => Z.lor (Z_of_byte b0) (Z.shiftl (Z_of_byte b1) 8)
  | _ => 0
  end.

(** ** Errors

    The Go code builds its errors with [errors.New] and [fmt.Errorf]; one
    constructor per message, with the values the message prints. *)
Inductive error : Type :=
  | EOF                                  (* io.EOF *)
  | ErrUnexpectedEOF                     (* io.ErrUnexpectedEOF *)
  | ErrInvalidType                       (* "binary.Read: invalid type ..." *)
  | ErrSeekWhence                        (* "bytes.Reader.Seek: invalid whence" *)
  | ErrSeekNegative                      (* "bytes.Reader.Seek: negative position" *)
  | ErrReader (code : Z)                 (* a failure of some other reader *)
  | ErrExpectedType (want got : Z)       (* "Expected type=%X, got type=%X" *)
  | ErrWrongHeader                       (* "AXML file has wrong header" *)
  | ErrUnknownChunkType (blocktype : Z)  (* "Unkown chunk type: %X" *)
  | ErrExpectedBlock                     (* "Error: Expected block 0xFFFFFFFF" *)
  | ErrExpectedFlag (flag at_ : Z).      (* "Expected flag 0x00140014, found %08X at %08X" *)

(** ** Readers

    [io.ReadSeeker], seen through [io.ReadFull]: [ReadFull n r] tries to
    fill a buffer of [n > 0] bytes and returns either the bytes of the
    full buffer or an error; [Seek offset whence r] returns the new
    position or an error. Both return the reader's next state. *)
Class ReadSeeker (R : Type) := {
  ReadFull : nat -> R -> (list byte + error) * R;
  Seek : Z -> Z -> R -> (Z * option error) * R
}.

(** [io.ReadFull]: an empty buffer is filled without calling [Read]. *)
Definition io_ReadFull {R} `{ReadSeeker R} (n : nat) (r : R)
  : (list byte + error) * R :=
  match n with
  | O => (inl [], r)
  | _ => ReadFull n r
  end.

(** [binary.Read(r, binary.LittleEndian, &x)] for [x : uint32]. On an
    error [x] keeps its value [old]. *)
Definition binary_Read_uint32 {R} `{ReadSeeker R} (old : Z) (r : R)
  : (Z * option error) * R :=
  match io_ReadFull 4 r with
  | (inl bs, r') => ((Uint32 bs, None), r')
  | (inr e, r') => ((old, Some e), r')
  end.

(** The same for [x : uint16]. *)
Definition binary_Read_uint16 {R} `{ReadSeeker R} (old : Z) (r : R)
  : (Z * option error) * R :=
  match io_ReadFull 2 r with
  | (inl bs, r') => ((Uint16 bs, None), r')
  | (inr e, r') => ((old, Some e), r')
  end.

(** [bytes.Reader]: a byte slice [s] and the read position [i]. *)
Module bytes.

Record Reader : Type := mkReader { s : list byte; i : Z }.

Definition NewReader (b : list byte) : Reader := {| s := b; i := 0 |}.

(** [io.ReadFull] over [Reader.Read]: [Read] returns [io.EOF] at or
    past the end and otherwise copies what is left, up to the buffer's
    length; a short copy is followed by a second [Read] that hits the
    end, which [io.ReadFull] reports as [io.ErrUnexpectedEOF]. *)
Definition ReadFull (n : nat) (r : Reader) : (list byte + error) * Reader :=
  if Z.of_nat (length (s r)) <=? i r then (inr EOF, r)
  else
    let rest := drop (Z.to_nat (i r)) (s r) in
    if (n <=? length rest)%nat
    then (inl (take n rest), {| s := s r; i := i r + Z.of_nat n |})
    else (inr ErrUnexpectedEOF, {| s := s r; i := Z.of_nat (length (s r)) |}).

(** [Reader.Seek]. *)
Definition Seek (offset whence : Z) (r : Reader) : (Z * option error) * Reader :=
  let go (abs : Z) :=
    if abs <? 0 then ((0, Some ErrSeekNegative), r)
    else ((abs, None), {| s := s r; i := abs |}) in
  if whence =? 0 then go offset
  else if whence =? 1 then go (i r + offset)
  else if whence =? 2 then go (Z.of_nat (length (s r)) + offset)
  else ((0, Some ErrSeekWhence), r).

(** What is left to read. *)
Definition remaining (r : Reader) : list byte := drop (Z.to_nat (i r)) (s r).

End bytes.

#[export] Instance bytes_ReadSeeker : ReadSeeker bytes.Reader := {
  ReadFull := bytes.ReadFull;
  Seek := bytes.Seek
}.

(** A reader on which every operation fails (a closed file, say). *)
Inductive Broken : Type := broken.

#[export] Instance Broken_ReadSeeker : ReadSeeker Broken := {
  ReadFull := fun _ r => (inr (ErrReader 1), r);
  Seek := fun _ _ r => ((0, Some (ErrReader 2)), r)
}.

(** [bytes.Buffer] as the bytes written so far; [binary.Write] of a
    [uint32] appends the four little-endian bytes, and a buffer's
    [Write] returns a nil error. *)
Definition Buffer : Type := list byte.

Definition binary_Write_uint32 (buf : Buffer) (v : Z) : option error * Buffer :=
  (None, buf ++ PutUint32 v).

(** ** Constants

    The constants of the [apkdig] package. The resource-id codec is in the
    package [axml], whose own declaration of [CHUNK_RESOURCEIDS] is not in
    the source; it is taken to be the same word, which is also the one the
    specification gives for a resource-id chunk. *)

Definition CHUNK_AXML_FILE : Z := 0x00080003.
Definition CHUNK_RESOURCEIDS : Z := 0x00080180.
Definition CHUNK_STRINGS : Z := 0x001C0001.
Definition CHUNK_XML_END_NAMESPACE : Z := 0x00100101.
Definition CHUNK_XML_END_TAG : Z := 0x00100103.
Definition CHUNK_XML_START_NAMESPACE : Z := 0x00100100.
Definition CHUNK_XML_START_TAG : Z := 0x00100102.
Definition CHUNK_XML_TEXT : Z := 0x00100104.
Definition UTF8_FLAG : Z := 0x00000100.
Definition SKIP_BLOCK : Z := 0xFFFFFFFF.

(** ** The resource-id block *)

(** Modelled from the spec: the declaration of [AxmlBlock] is not in the
    source file. Its fields are the ones the code reads and writes: the
    two [uint32] header words of a chunk (the spec's [ChunkHeader]), named
    [Type] and [Size] in the code, and the [int64] [Offset] of the chunk. *)
Record AxmlBlock : Type := mkAxmlBlock {
  Type_ : Z;
  Size : Z;
  Offset : Z
}.

Record ResourceIdsBlock : Type := mkResourceIdsBlock {
  Block : AxmlBlock;
  Ids : list Z
}.

(** The zero value of the struct. *)
Definition ResourceIdsBlock_zero : ResourceIdsBlock :=
  {| Block := {| Type_ := 0; Size := 0; Offset := 0 |}; Ids := [] |}.

Definition set_Type (v : Z) (b : ResourceIdsBlock) : ResourceIdsBlock :=
  {| Block := {| Type_ := v; Size := Size (Block b); Offset := Offset (Block b) |};
     Ids := Ids b |}.

Definition set_Size (v : Z) (b : ResourceIdsBlock) : ResourceIdsBlock :=
  {| Block := {| Type_ := Type_ (Block b); Size := v; Offset := Offset (Block b) |};
     Ids := Ids b |}.

Definition set_Offset (v : Z) (b : ResourceIdsBlock) : ResourceIdsBlock :=
  {| Block := {| Type_ := Type_ (Block b); Size := Size (Block b); Offset := v |};
     Ids := Ids b |}.

Definition set_Ids (v : list Z) (b : ResourceIdsBlock) : ResourceIdsBlock :=
  {| Block := Block b; Ids := v |}.

(** The number of ids of a block of the given size: [Size/4 - 2] in
    [uint32] arithmetic. *)
Definition id_count (size : Z) : Z := u32 (size / 4 - 2).

(** The loop of [UnmarshalBinary]: [n] iterations are left, the next one
    reads [b.Ids[i]] and returns on an error. *)
Fixpoint UnmarshalBinary_loop (n : nat) (i : Z) (ids : list Z)
    (reader : bytes.Reader) : list Z * option error :=
  match n with
  | O => (ids, None)
  | S n' =>
      match binary_Read_uint32 (ids !!! Z.to_nat i) reader with
      | ((_, Some err), _) => (ids, Some err)
      | ((v, None), reader') =>
          UnmarshalBinary_loop n' (i + 1) (<[Z.to_nat i := v]> ids) reader'
      end
  end.

Definition UnmarshalBinary (b : ResourceIdsBlock) (data : list byte)
  : ResourceIdsBlock * option error :=
  let reader := bytes.NewReader data in
  match binary_Read_uint32 (Type_ (Block b)) reader with
  | ((_, Some err), _) => (b, Some err)
  | ((ty, None), reader) =>
      let b := set_Type ty b in
      if negb (ty =? CHUNK_RESOURCEIDS)
      then (b, Some (ErrExpectedType CHUNK_RESOURCEIDS ty))
      else
        match binary_Read_uint32 (Size (Block b)) reader with
        | ((_, Some err), _) => (b, Some err)
        | ((sz, None), reader) =>
            let b := set_Size sz b in
            let n := Z.to_nat (id_count sz) in
            let '(ids, err) := UnmarshalBinary_loop n 0 (replicate n 0) reader in
            (set_Ids ids b, err)
        end
  end.

(** The loop of [MarshalBinary] over [b.Ids]. *)
Fixpoint MarshalBinary_loop (ids : list Z) (buf : Buffer) : option error * Buffer :=
  match ids with
  | [] => (None, buf)
  | id :: rest =>
      match binary_Write_uint32 buf id with
      | (Some err, buf') => (Some err, buf')
      | (None, buf') => MarshalBinary_loop rest buf'
      end
  end.

(** [MarshalBinary]; a nil slice is the empty list. *)
Definition MarshalBinary (b : ResourceIdsBlock) : list byte * option error :=
  let buf : Buffer := [] in
  match binary_Write_uint32 buf (Type_ (Block b)) with
  | (Some err, _) => ([], Some err)
  | (None, buf) =>
      match binary_Write_uint32 buf (Size (Block b)) with
      | (Some err, _) => ([], Some err)
      | (None, buf) =>
          match MarshalBinary_loop (Ids b) buf with
          | (Some err, _) => ([], Some err)
          | (None, buf) => (buf, None)
          end
      end
  end.

(** The loop of [ReadResourceIdsBlock]: the result of each read is
    dropped, an id whose read fails keeps its value. *)
Fixpoint ReadResourceIdsBlock_loop {R} `{ReadSeeker R} (n : nat) (i : Z)
    (ids : list Z) (reader : R) : list Z * R :=
  match n with
  | O => (ids, reader)
  | S n' =>
      let '((v, _), reader') := binary_Read_uint32 (ids !!! Z.to_nat i) reader in
      ReadResourceIdsBlock_loop n' (i + 1) (<[Z.to_nat i := v]> ids) reader'
  end.

Definition ReadResourceIdsBlock {R} `{ReadSeeker R} (reader : R) (size offset : Z)
  : (ResourceIdsBlock * option error) * R :=
  let rid := ResourceIdsBlock_zero in
  let rid := set_Type CHUNK_RESOURCEIDS rid in
  let rid := set_Size size rid in
  let rid := set_Offset offset rid in
  let '(_, reader) := Seek offset 0 reader in
  let n := Z.to_nat (id_count size) in
  let '(ids, reader) := ReadResourceIdsBlock_loop n 0 (replicate n 0) reader in
  ((set_Ids ids rid, None), reader).

(** ** Strings: [unicode/utf16] and the conversion [string(runes)] *)

Definition surr1 : Z := 0xd800.
Definition surr2 : Z := 0xdc00.
Definition surr3 : Z := 0xe000.
Definition surrSelf : Z := 0x10000.
Definition replacementChar : Z := 0xFFFD.

(** [utf16.DecodeRune] on a valid surrogate pair. *)
Definition DecodeRune (r1 r2 : Z) : Z :=
  Z.lor (Z.shiftl (r1 - surr1) 10) (r2 - surr2) + surrSelf.

(** [utf16.Decode]. *)
Fixpoint utf16_Decode (s : list Z) : list Z :=
  match s with
  | [] => []
  | r :: rest =>
      if (r <? surr1) || (surr3 <=? r) then r :: utf16_Decode rest
      else if (surr1 <=? r) && (r <? surr2) then
        match rest with
        | r2 :: rest' =>
            if (surr2 <=? r2) && (r2 <? surr3)
            then DecodeRune r r2 :: utf16_Decode rest'
            else replacementChar :: utf16_Decode rest
        | [] => [replacementChar]
        end
      else replacementChar :: utf16_Decode rest
  end.

(** The UTF-8 bytes of one rune, as [string(rune)] writes them: a
    surrogate or a value above U+10FFFF becomes U+FFFD. *)
Definition encoderune (r : Z) : list byte :=
  let cont (x : Z) := byte_of_Z (Z.lor 0x80 (Z.land x 0x3F)) in
  if (0 <=? r) && (r <=? 0x7F) then [byte_of_Z r]
  else if (0 <=? r) && (r <=? 0x7FF)
  then [byte_of_Z (Z.lor 0xC0 (Z.shiftr r 6)); cont r]
  else
    let three (r : Z) :=
      [byte_of_Z (Z.lor 0xE0 (Z.shiftr r 12)); cont (Z.shiftr r 6); cont r] in
    if (r <? 0) || (0x10FFFF <? r) || ((surr1 <=? r) && (r <? surr3))
    then three replacementChar
    else if r <=? 0xFFFF then three r
    else [byte_of_Z (Z.lor 0xF0 (Z.shiftr r 18)); cont (Z.shiftr r 12);
          cont (Z.shiftr r 6); cont r].

(** [string(runes)]. *)
Definition string_of_runes (runes : list Z) : string :=
  string_of_list_byte (concat (map encoderune runes)).

(** ** The document *)

Record StringsMeta : Type := mkStringsMeta {
  Nstrings : Z;
  StyleOffsetCount : Z;
  Flags : Z;
  StringDataOffset : Z;
  Stylesoffset : Z;
  DataOffset : list Z
}.

Record AXML : Type := mkAXML {
  Header : Z;
  size : Z;
  stringsmeta : StringsMeta;
  Strings : list string
}.

(** [AXML{}]. *)
Definition AXML_zero : AXML :=
  {| Header := 0; size := 0;
     stringsmeta := {| Nstrings := 0; StyleOffsetCount := 0; Flags := 0;
                       StringDataOffset := 0; Stylesoffset := 0;
                       DataOffset := [] |};
     Strings := [] |}.

(** What [fmt.Printf] writes to the standard output: the line of a chunk
    ("@offset[size]: NAME") or the line of a start tag ("Line n <name>"). *)
Inductive printed : Type :=
  | ChunkLine (name : string) (offset size : Z)
  | TagLine (lineNumber : Z) (name : string).

(** How a call ends: it returns, or the Go runtime stops it with
    "index out of range [index] with length [len]". *)
Inductive result : Type :=
  | Returned (axml : AXML) (err : option error)
  | IndexPanic (index : Z) (len : nat).

(** ** [ReadAXML] *)

Section ReadAXML.

Context {R : Type} `{ReadSeeker R}.

(** Reads thread the reader; [ReadAXML] drops every error a read or a
    seek returns. *)
Definition M (A : Type) : Type := R -> A * R.

Definition ret {A} (a : A) : M A := fun r => (a, r).

Definition bind {A B} (m : M A) (k : A -> M B) : M B :=
  fun r => let '(a, r') := m r in k a r'.

Notation "x <- m ;; k" := (bind m (fun x => k))
  (at level 100, m at next level, right associativity).

(** [binary.Read(reader, binary.LittleEndian, &x)], error dropped. *)
Definition read_uint32 (old : Z) : M Z :=
  fun r => let '((v, _), r') := binary_Read_uint32 old r in (v, r').

Definition read_uint16 (old : Z) : M Z :=
  fun r => let '((v, _), r') := binary_Read_uint16 old r in (v, r').

(** [binary.Read] into a value whose type has no fixed size ([uint],
    [string]): it fails with "invalid type" before it reads anything. *)
Definition binary_Read_unsized {A} (old : A) (r : R) : (A * option error) * R :=
  ((old, Some ErrInvalidType), r).

Definition read_unsized {A} (old : A) : M A :=
  fun r => let '((v, _), r') := binary_Read_unsized old r in (v, r').

(** The little-endian [uint16]s of a buffer. *)
Fixpoint decode_uint16s (bs : list byte) : list Z :=
  match bs with
  | b0 :: b1 :: rest => Uint16 [b0; b1] :: decode_uint16s rest
  | _ => []
  end.

(** [binary.Read] into a [[]uint16] of the length of [old]: one
    [io.ReadFull] of twice as many bytes, then the elements are decoded;
    on an error the slice keeps its contents. *)
Definition binary_Read_uint16s (old : list Z) (r : R) : (list Z * option error) * R :=
  match io_ReadFull (2 * length old) r with
  | (inl bs, r') => ((decode_uint16s bs, None), r')
  | (inr e, r') => ((old, Some e), r')
  end.

Definition read_uint16s (old : list Z) : M (list Z) :=
  fun r => let '((v, _), r') := binary_Read_uint16s old r in (v, r').

(** [reader.Seek(offset, whence)], result dropped. *)
Definition seek (offset whence : Z) : M unit :=
  fun r => let '(_, r') := Seek offset whence r in (tt, r').

(** The loop that appends [Nstrings] offsets to [DataOffset]. *)
Fixpoint read_DataOffset (n : nat) (dataOffset : list Z) : M (list Z) :=
  match n with
  | O => ret dataOffset
  | S n' =>
      offset <- read_uint32 0 ;;
      read_DataOffset n' (dataOffset ++ [offset])
  end.

(** The UTF-16LE loop: [n] iterations are left, [i] is the loop index. *)
Fixpoint read_utf16_strings (n : nat) (i nstrings : Z) (strings : list string)
  : M (list string) :=
  match n with
  | O => ret strings
  | S n' =>
      size <- read_uint16 0 ;;
      stringbytes <- read_uint16s (replicate (Z.to_nat size) 0) ;;
      let strings := strings ++ [string_of_runes (utf16_Decode stringbytes)] in
      _ <- (if negb (i =? u32 (nstrings - 1)) then seek 2 1 else ret tt) ;;
      read_utf16_strings n' (i + 1) nstrings strings
  end.

(** The [CHUNK_STRINGS] case. *)
Definition read_strings_chunk (axml : AXML) : M AXML :=
  let sm := stringsmeta axml in
  nstrings <- read_uint32 (Nstrings sm) ;;
  styleOffsetCount <- read_uint32 (StyleOffsetCount sm) ;;
  flags <- read_uint32 (Flags sm) ;;
  stringDataOffset <- read_uint32 (StringDataOffset sm) ;;
  stylesoffset <- read_uint32 (Stylesoffset sm) ;;
  dataOffset <- read_DataOffset (Z.to_nat nstrings) (DataOffset sm) ;;
  strings <-
    (if negb (Z.land flags UTF8_FLAG =? 0)
     then (* String will be in UTF-8 encoding *)
       _ <- read_unsized EmptyString ;;
       ret (Strings axml)
     else (* String will be in UTF-16LE encoding *)
       read_utf16_strings (Z.to_nat nstrings) 0 nstrings (Strings axml)) ;;
  ret {| Header := Header axml; size := size axml;
         stringsmeta := {| Nstrings := nstrings;
                           StyleOffsetCount := styleOffsetCount;
                           Flags := flags;
                           StringDataOffset := stringDataOffset;
                           Stylesoffset := stylesoffset;
                           DataOffset := dataOffset |};
         Strings := strings |}.

(** The variables of the chunk loop. *)
Record Loop : Type := mkLoop {
  l_reader : R;
  l_axml : AXML;
  l_blocktype : Z;
  l_size : Z;
  l_offset : Z;
  l_stdout : list printed
}.

(** One iteration either goes on to the next one or ends the call. *)
Inductive step : Type :=
  | Next (l : Loop)
  | Done (res : result) (stdout : list printed).

(** The end of an iteration: [offset += size; reader.Seek(int64(offset), 0)]. *)
Definition advance (reader : R) (axml : AXML) (blocktype size offset : Z)
    (stdout : list printed) : step :=
  let offset := u32 (offset + size) in
  let '(_, reader) := seek offset 0 reader in
  Next {| l_reader := reader; l_axml := axml; l_blocktype := blocktype;
          l_size := size; l_offset := offset; l_stdout := stdout |}.

(** The [CHUNK_XML_START_TAG] case. *)
Definition read_start_tag (reader : R) (axml : AXML) (blocktype size offset : Z)
    (stdout : list printed) : step :=
  let '(lineNumber, reader) := read_uint32 0 reader in
  let '(skip, reader) := read_uint32 0 reader in
  if negb (skip =? SKIP_BLOCK)
  then Done (Returned axml (Some ErrExpectedBlock)) stdout
  else
    let '(nsIdx, reader) := read_uint32 0 reader in
    let '(nameIdx, reader) := read_uint32 0 reader in
    let '(flag, reader) := read_uint32 0 reader in
    if negb (flag =? 0x00140014)
    then Done (Returned axml (Some (ErrExpectedFlag flag (u32 (offset + 4 * 6))))) stdout
    else
      let '(attributeCount, reader) := read_unsized 0 reader in
      match Strings axml !! Z.to_nat nameIdx with
      | Some name =>
          advance reader axml blocktype size offset
                  (stdout ++ [TagLine lineNumber name])
      | None => Done (IndexPanic nameIdx (length (Strings axml))) stdout
      end.

(** The body of the chunk loop. *)
Definition ReadAXML_body (l : Loop) : step :=
  let axml := l_axml l in
  let offset := l_offset l in
  let stdout := l_stdout l in
  let '(blocktype, reader) := read_uint32 (l_blocktype l) (l_reader l) in
  let '(size, reader) := read_uint32 (l_size l) reader in
  let chunk (name : string) :=
    advance reader axml blocktype size offset
            (stdout ++ [ChunkLine name offset size]) in
  if blocktype =? CHUNK_RESOURCEIDS then chunk "CHUNK_RESOURCEIDS"%string
  else if blocktype =? CHUNK_STRINGS then
    let '(axml, reader) := read_strings_chunk axml reader in
    advance reader axml blocktype size offset stdout
  else if blocktype =? CHUNK_XML_END_NAMESPACE then chunk "CHUNK_XML_END_NAMESPACE"%string
  else if blocktype =? CHUNK_XML_END_TAG then chunk "CHUNK_XML_END_TAG"%string
  else if blocktype =? CHUNK_XML_START_NAMESPACE then chunk "CHUNK_XML_START_NAMESPACE"%string
  else if blocktype =? CHUNK_XML_START_TAG then
    read_start_tag reader axml blocktype size offset stdout
  else if blocktype =? CHUNK_XML_TEXT then chunk "CHUNK_XML_TEXT"%string
  else Done (Returned axml (Some (ErrUnknownChunkType blocktype))) stdout.

(** The chunk loop [for offset := uint32(8); offset < axml.size; { ... }]
    with a bound on the number of iterations; [None] when the bound is
    reached before the loop ends. *)
Fixpoint ReadAXML_loop (fuel : nat) (l : Loop) : option (result * list printed) :=
  if l_offset l <? size (l_axml l) then
    match fuel with
    | O => None
    | S fuel' =>
        match ReadAXML_body l with
        | Next l' => ReadAXML_loop fuel' l'
        | Done res stdout => Some (res, stdout)
        end
    end
  else Some (Returned (l_axml l) None, l_stdout l).

(** The state in which [ReadAXML] enters the loop, or its early return. *)
Definition ReadAXML_enter (reader : R) : step :=
  let axml := AXML_zero in
  let '(header, reader) := read_uint32 (Header axml) reader in
  let axml := {| Header := header; size := size axml;
                 stringsmeta := stringsmeta axml; Strings := Strings axml |} in
  if negb (Header axml =? CHUNK_AXML_FILE)
  then Done (Returned axml (Some ErrWrongHeader)) []
  else
    let '(sz, reader) := read_uint32 (size axml) reader in
    let axml := {| Header := Header axml; size := sz;
                   stringsmeta := stringsmeta axml; Strings := Strings axml |} in
    Next {| l_reader := reader; l_axml := axml; l_blocktype := 0; l_size := 0;
            l_offset := 8; l_stdout := [] |}.

Definition ReadAXML (fuel : nat) (reader : R) : option (result * list printed) :=
  match ReadAXML_enter reader with
  | Next l => ReadAXML_loop fuel l
  | Done res stdout => Some (res, stdout)
  end.

End ReadAXML.

Arguments Loop R : clear implicits.
Arguments step R : clear implicits.

(** * Vocabulary of the statements *)

(** The words of a list, one after the other. *)
Definition words (vs : list Z) : list byte := concat (map PutUint32 vs).

(** A table whose stored size is stale: one id, but the size of an empty
    table. *)
Definition stale_block : ResourceIdsBlock :=
  {| Block := {| Type_ := CHUNK_RESOURCEIDS; Size := 8; Offset := 0 |};
     Ids := [7] |}.

(** The round trip of a table [t]: it is encoded without an error, and
    decoding the bytes into a fresh block gives [t] back. *)
Definition roundtrips (t : ResourceIdsBlock) : Prop :=
  exists data,
    MarshalBinary t = (data, None)
    /\ UnmarshalBinary ResourceIdsBlock_zero data = (t, None).

(** The second header word of an encoding. *)
Definition size_word (data : list byte) : Z := Uint32 (take 4 (drop 4 data)).

(** The outcomes of [n] successive reads of a word from [r]: the word, or
    [None] for a read that fails; and the reader afterwards. *)
Fixpoint read_results {R : Type} `{ReadSeeker R} (n : nat) (r : R) : list (option Z) * R :=
  match n with
  | O => ([], r)
  | S n' =>
      let '((v, e), r') := binary_Read_uint32 0 r in
      let '(rs, r'') := read_results n' r' in
      ((match e with None => Some v | Some _ => None end) :: rs, r'')
  end.

(** The chunk types [ReadAXML] has a case for. *)
Definition chunk_types : list Z :=
  [CHUNK_RESOURCEIDS; CHUNK_STRINGS; CHUNK_XML_END_NAMESPACE; CHUNK_XML_END_TAG;
   CHUNK_XML_START_NAMESPACE; CHUNK_XML_START_TAG; CHUNK_XML_TEXT].

Definition recognized (blocktype : Z) : bool :=
  existsb (Z.eqb blocktype) chunk_types.

(** The type word in effect in an iteration: the one read at the start
    of the chunk. *)
Definition chunk_type_read {R : Type} `{ReadSeeker R} (l : Loop R) : Z :=
  (read_uint32 (l_blocktype l) (l_reader l)).1.

(** How far the offset has to go. *)
Definition distance {R : Type} (l : Loop R) : Z := size (l_axml l) - l_offset l.

(** Each of the next [n] iterations that goes on moves the offset
    forward: its size word is not zero and the sum does not wrap around. *)
Fixpoint advancing {R : Type} `{ReadSeeker R} (n : nat) (l : Loop R) : bool :=
  if l_offset l <? size (l_axml l) then
    match n with
    | O => true
    | S n' =>
        match ReadAXML_body l with
        | Next l' => (l_offset l <? l_offset l') && advancing n' l'
        | Done _ _ => true
        end
    end
  else true.

(** The chunk loop as a relation, without a bound: [runs l res] when the
    loop entered in state [l] ends with [res]. It ends when the offset has
    reached the document's size, or in the first iteration that returns
    or panics. *)
Inductive runs {R : Type} `{ReadSeeker R} : Loop R -> result * list printed -> Prop :=
  | runs_exit (l : Loop R) :
      size (l_axml l) <= l_offset l ->
      runs l (Returned (l_axml l) None, l_stdout l)
  | runs_Done (l : Loop R) (res : result) (stdout : list printed) :
      l_offset l < size (l_axml l) ->
      ReadAXML_body l = Done res stdout ->
      runs l (res, stdout)
  | runs_Next (l l' : Loop R) (res : result * list printed) :
      l_offset l < size (l_axml l) ->
      ReadAXML_body l = Next l' ->
      runs l' res ->
      runs l res.

(** The reader four bytes further. *)
Definition next4 (r : bytes.Reader) : bytes.Reader :=
  {| bytes.s := bytes.s r; bytes.i := bytes.i r + 4 |}.

(** The state in which the loop is entered on the input [data] whose
    header declares [total] bytes. *)
Definition entry (data : list byte) (total : Z) : Loop bytes.Reader :=
  {| l_reader := {| bytes.s := data; bytes.i := 8 |};
     l_axml := {| Header := CHUNK_AXML_FILE; size := total;
                  stringsmeta := stringsmeta AXML_zero; Strings := [] |};
     l_blocktype := 0; l_size := 0; l_offset := 8; l_stdout := [] |}.

(** A document whose only chunk is a start tag with name index 3, while
    no string has been decoded. *)
Definition panic_doc : list byte :=
  PutUint32 CHUNK_AXML_FILE ++ PutUint32 36
  ++ words [CHUNK_XML_START_TAG; 28; 7; SKIP_BLOCK; 0; 3; 0x00140014].

(** A start tag whose sentinel word and flag word are both wrong. *)
Definition bad_sentinel_doc : list byte :=
  PutUint32 CHUNK_AXML_FILE ++ PutUint32 36
  ++ words [CHUNK_XML_START_TAG; 28; 7; 0; 0; 0; 0x00140013].

(** The scenario of the specification: one start tag at offset 8 with the
    flag word 0x00140013. *)
Definition bad_flag_doc : list byte :=
  PutUint32 CHUNK_AXML_FILE ++ PutUint32 36
  ++ words [CHUNK_XML_START_TAG; 28; 7; SKIP_BLOCK; 0; 0; 0x00140013].

(** A string pool of the two strings "hi" and "A" in UTF-8, with
    [UTF8_FLAG] set: after the header come the five words of the pool and
    the two offsets, then each string with its two length bytes in front
    and a NUL behind, and three bytes of padding. *)
Definition utf8_pool_doc : list byte :=
  PutUint32 CHUNK_AXML_FILE ++ PutUint32 56
  ++ words [CHUNK_STRINGS; 48; 2; 0; UTF8_FLAG; 36; 0; 0; 5]
  ++ [x02; x02; x68; x69; x00; x01; x01; x41; x00; x00; x00; x00].

(** The same pool in UTF-16LE: each string with its 16-bit length in
    front and a NUL code unit behind, and two bytes of padding. *)
Definition utf16_pool_doc : list byte :=
  PutUint32 CHUNK_AXML_FILE ++ PutUint32 60
  ++ words [CHUNK_STRINGS; 52; 2; 0; 0; 36; 0; 0; 8]
  ++ concat (map PutUint16 [2; 0x68; 0x69; 0; 1; 0x41; 0; 0]).

Definition unknown_chunk_doc : list byte :=
  PutUint32 CHUNK_AXML_FILE ++ PutUint32 24
  ++ words [CHUNK_XML_TEXT; 8; 0x00100105; 8].

(** A document whose first chunk declares the size 0. *)
Definition zero_size_doc : list byte :=
  PutUint32 CHUNK_AXML_FILE ++ PutUint32 16 ++ words [CHUNK_RESOURCEIDS; 0].

(** A document of two chunks with sizes 12 and 8. *)
Definition two_chunk_doc : list byte :=
  PutUint32 CHUNK_AXML_FILE ++ PutUint32 28
  ++ words [CHUNK_RESOURCEIDS; 12; 0x01010000; CHUNK_XML_TEXT; 8].

(** The error of a read that finds fewer than four bytes. *)
Definition short_read_error (left : list byte) : error :=
  match left with
  | [] => EOF
  | _ => ErrUnexpectedEOF
  end.

(** The errors [ReadAXML] makes itself. *)
Definition decode_error (e : error) : Prop :=
  match e with
  | ErrWrongHeader | ErrUnknownChunkType _ | ErrExpectedBlock | ErrExpectedFlag _ _ =>
      True
  | _ => False
  end.

(** [a'] is [a] with more offsets and strings, under the same header. *)
Definition extends (a a' : AXML) : Prop :=
  Header a' = Header a
  /\ size a' = size a
  /\ Strings a `prefix_of` Strings a'
  /\ DataOffset (stringsmeta a) `prefix_of` DataOffset (stringsmeta a').

(** The word a [bytes.Reader] reads first from [data]: the first four
    bytes, or the old value 0 when there are fewer. *)
Definition first_word (data : list byte) : Z :=
  if (length data <? 4)%nat then 0 else Uint32 (take 4 data).

(** The name [ReadAXML] prints for a chunk that it only reports. *)
Definition chunk_name (blocktype : Z) : option string :=
  if blocktype =? CHUNK_RESOURCEIDS then Some "CHUNK_RESOURCEIDS"%string
  else if blocktype =? CHUNK_XML_END_NAMESPACE then Some "CHUNK_XML_END_NAMESPACE"%string
  else if blocktype =? CHUNK_XML_END_TAG then Some "CHUNK_XML_END_TAG"%string
  else if blocktype =? CHUNK_XML_START_NAMESPACE
  then Some "CHUNK_XML_START_NAMESPACE"%string
  else if blocktype =? CHUNK_XML_TEXT then Some "CHUNK_XML_TEXT"%string
  else None.

(** A chunk, given by its type and its body: the type word, the size
    word (8 more than the body's length) and the body. *)
Definition chunk_bytes (c : Z * list byte) : list byte :=
  PutUint32 c.1 ++ PutUint32 (8 + Z.of_nat (length c.2)) ++ c.2.

(** The lines printed for chunks laid out from [offset] on. *)
Fixpoint chunk_lines (offset : Z) (cs : list (Z * list byte)) : list printed :=
  match cs with
  | [] => []
  | c :: cs' =>
      let sz := 8 + Z.of_nat (length c.2) in
      ChunkLine (default ""%string (chunk_name c.1)) offset sz
      :: chunk_lines (offset + sz) cs'
  end.

Definition is_u16 (z : Z) : Prop := 0 <= z < 2 ^ 16.

(** A string of the pool as the UTF-16 branch reads it: the number of
    code units as a [uint16], then the code units. *)
Definition utf16_string (units : list Z) : list byte :=
  PutUint16 (Z.of_nat (length units)) ++ concat (map PutUint16 units).

(** The strings one after the other, with two bytes (the NUL code unit)
    between one string and the next. *)
Fixpoint utf16_strings (strs : list (list Z)) : list byte :=
  match strs with
  | [] => []
  | units :: rest =>
      utf16_string units
      ++ match rest with
         | [] => []
         | _ => [x00; x00] ++ utf16_strings rest
         end
  end.

(** The lines printed when the chunk header (type [name], size [sz]) is
    reported [k] times from [offset] on. *)
Fixpoint repeated_lines (name : string) (sz offset : Z) (k : nat) : list printed :=
  match k with
  | O => []
  | S k' => ChunkLine name offset sz :: repeated_lines name sz (offset + sz) k'
  end.

(** * Properties *)

(** ** Bytes and little-endian words *)

Lemma Z_of_byte_range (b : byte) : 0 <= Z_of_byte b < 256.
Proof.
  unfold Z_of_byte. pose proof (Byte.to_N_bounded b). lia.
Qed.

Lemma Z_of_byte_of_Z (z : Z) : Z_of_byte (byte_of_Z z) = z mod 256.
Proof.
  unfold Z_of_byte, byte_of_Z.
  assert (Hr : 0 <= z mod 256 < 256) by (apply Z.mod_pos_bound; lia).
  destruct (Byte.of_N (Z.to_N (z mod 256))) as [b|] eqn:E.
  - apply Byte.to_of_N in E. rewrite E. lia.
  - apply Byte.of_N_None_iff in E. lia.
Qed.

Lemma PutUint32_length (v : Z) : length (PutUint32 v) = 4%nat.
Proof. reflexivity. Qed.

Lemma testbit_low_byte (x n : Z) :
  Z.testbit (x mod 256) n = (n <? 8) && Z.testbit x n.
Proof. change 256 with (2 ^ 8). apply Z.testbit_mod_pow2. lia. Qed.

(** Comparisons of a bit index that [lia] settles. *)
Ltac ltb_decide :=
  repeat match goal with
  | |- context [?a <? ?b] =>
      first [ replace (a <? b) with true by (symmetry; apply Z.ltb_lt; lia)
            | replace (a <? b) with false by (symmetry; apply Z.ltb_ge; lia) ]
  end.

(** The bit [n] of each byte of a word, in terms of the bits of the word. *)
Ltac byte_bits n :=
  rewrite ?testbit_low_byte;
  repeat match goal with
  | |- context [Z.testbit (Z.shiftr ?x ?k) (n - ?k)] =>
      first [ rewrite (Z.shiftr_spec x k (n - k)) by lia;
              replace (n - k + k) with n by lia
            | rewrite (Z.testbit_neg_r (Z.shiftr x k) (n - k)) by lia ]
  end;
  ltb_decide; simpl; rewrite ?orb_false_r, ?andb_false_r; try reflexivity.

(** Decoding the four bytes of a word gives the word back, reduced to 32
    bits. *)
Lemma Uint32_PutUint32 (v : Z) : Uint32 (PutUint32 v) = u32 v.
Proof.
  unfold Uint32, PutUint32, u32. rewrite !Z_of_byte_of_Z.
  apply Z.bits_inj'. intros n Hn.
  rewrite !Z.lor_spec, Z.testbit_mod_pow2 by lia.
  rewrite !Z.shiftl_spec by lia.
  destruct (Z.ltb_spec n 8); [byte_bits n|].
  destruct (Z.ltb_spec n 16); [byte_bits n|].
  destruct (Z.ltb_spec n 24); [byte_bits n|].
  destruct (Z.ltb_spec n 32); byte_bits n.
Qed.

Lemma u32_small (v : Z) : is_u32 v -> u32 v = v.
Proof. unfold is_u32, u32. intros. apply Z.mod_small. lia. Qed.

Lemma u32_range (v : Z) : is_u32 (u32 v).
Proof. unfold is_u32, u32. apply Z.mod_pos_bound. lia. Qed.

(** ** Reading from a [bytes.Reader] *)

Lemma words_cons v vs : words (v :: vs) = PutUint32 v ++ words vs.
Proof. reflexivity. Qed.

Lemma words_length vs : length (words vs) = (4 * length vs)%nat.
Proof.
  induction vs as [|v vs IH]; [reflexivity|].
  rewrite words_cons, length_app, PutUint32_length, IH. simpl. lia.
Qed.

(** A reader that has the bytes of [v] next reads [v] and moves on by
    four bytes. *)
Lemma bytes_read_word (r : bytes.Reader) (v old : Z) (rest : list byte) :
  0 <= bytes.i r ->
  bytes.remaining r = PutUint32 v ++ rest ->
  binary_Read_uint32 old r
  = ((u32 v, None), {| bytes.s := bytes.s r; bytes.i := bytes.i r + 4 |})
  /\ bytes.remaining {| bytes.s := bytes.s r; bytes.i := bytes.i r + 4 |} = rest.
Proof.
  intros Hi Hrem. unfold bytes.remaining in *. simpl.
  assert (Hlen : (Z.to_nat (bytes.i r) + 4 <= length (bytes.s r))%nat).
  { assert (Hl := f_equal length Hrem).
    rewrite length_drop, length_app, PutUint32_length in Hl. lia. }
  split.
  - unfold binary_Read_uint32, io_ReadFull. simpl. unfold bytes.ReadFull.
    destruct (Z.leb_spec (Z.of_nat (length (bytes.s r))) (bytes.i r)); [lia|].
    rewrite Hrem.
    replace (4 <=? length (PutUint32 v ++ rest))%nat with true
      by (symmetry; apply Nat.leb_le; rewrite length_app, PutUint32_length; lia).
    rewrite (take_app_length' (PutUint32 v) rest 4) by reflexivity.
    rewrite Uint32_PutUint32. reflexivity.
  - replace (Z.to_nat (bytes.i r + 4)) with (Z.to_nat (bytes.i r) + 4)%nat by lia.
    rewrite <- drop_drop, Hrem.
    apply (drop_app_length' (PutUint32 v) rest 4). reflexivity.
Qed.

Lemma bytes_read_words (vs : list Z) :
  forall (r : bytes.Reader) (rest : list byte),
  0 <= bytes.i r ->
  bytes.remaining r = words vs ++ rest ->
  bytes.remaining
    {| bytes.s := bytes.s r; bytes.i := bytes.i r + 4 * Z.of_nat (length vs) |}
  = rest.
Proof.
  intros r rest Hi Hrem. unfold bytes.remaining in *. simpl.
  replace (Z.to_nat (bytes.i r + 4 * Z.of_nat (length vs)))
    with (Z.to_nat (bytes.i r) + 4 * length vs)%nat by lia.
  rewrite <- drop_drop, Hrem.
  apply drop_app_length'. symmetry. apply words_length.
Qed.

(** A reader with fewer than four bytes left fails to read a word, and has
    nothing left afterwards. *)
Lemma bytes_read_short (r : bytes.Reader) (old : Z) :
  0 <= bytes.i r ->
  (length (bytes.remaining r) < 4)%nat ->
  exists e r',
    binary_Read_uint32 old r = ((old, Some e), r')
    /\ 0 <= bytes.i r' /\ bytes.s r' = bytes.s r
    /\ (length (bytes.remaining r') < 4)%nat.
Proof.
  intros Hi Hshort.
  unfold binary_Read_uint32, io_ReadFull. simpl. unfold bytes.ReadFull.
  destruct (Z.leb_spec (Z.of_nat (length (bytes.s r))) (bytes.i r)).
  - exists EOF, r. auto.
  - unfold bytes.remaining in Hshort.
    replace (4 <=? length (drop (Z.to_nat (bytes.i r)) (bytes.s r)))%nat
      with false by (symmetry; apply Nat.leb_gt; lia).
    eexists _, _. split; [reflexivity|]. simpl. split; [lia|]. split; [reflexivity|].
    unfold bytes.remaining. simpl. rewrite length_drop. lia.
Qed.

(** ** The resource-id codec *)

Lemma MarshalBinary_loop_spec (ids : list Z) :
  forall buf, MarshalBinary_loop ids buf = (None, buf ++ words ids).
Proof.
  induction ids as [|id ids IH]; intros buf; simpl.
  - now rewrite app_nil_r.
  - rewrite IH, words_cons. now rewrite <- app_assoc.
Qed.

(** [MarshalBinary] in closed form. *)
Lemma MarshalBinary_spec (b : ResourceIdsBlock) :
  MarshalBinary b
  = (PutUint32 (Type_ (Block b)) ++ PutUint32 (Size (Block b)) ++ words (Ids b),
     None).
Proof.
  unfold MarshalBinary, binary_Write_uint32.
  rewrite MarshalBinary_loop_spec, app_nil_l. now rewrite <- app_assoc.
Qed.

(** The word at byte offset [4 * k] of a run of words. *)
Lemma words_lookup (vs : list Z) (k : nat) (v : Z) (rest : list byte) :
  vs !! k = Some v ->
  take 4 (drop (4 * k) (words vs ++ rest)) = PutUint32 v.
Proof.
  revert k. induction vs as [|v' vs IH]; intros k Hk; [discriminate|].
  destruct k as [|k]; simpl in Hk.
  - injection Hk as ->. rewrite words_cons, <- app_assoc.
    apply (take_app_length' (PutUint32 v)). reflexivity.
  - replace (4 * S k)%nat with (4 + 4 * k)%nat by lia.
    rewrite <- drop_drop, words_cons, <- app_assoc.
    rewrite (drop_app_length' (PutUint32 v')) by reflexivity.
    now apply IH.
Qed.

(** The loop of [UnmarshalBinary] on a reader that has all the words: the
    ids not yet read are the zeros [make] put there. *)
Lemma UnmarshalBinary_loop_full (vs : list Z) :
  forall (done : list Z) (r : bytes.Reader) (rest : list byte),
  0 <= bytes.i r ->
  bytes.remaining r = words vs ++ rest ->
  UnmarshalBinary_loop (length vs) (Z.of_nat (length done))
                       (done ++ replicate (length vs) 0) r
  = (done ++ map u32 vs, None).
Proof.
  induction vs as [|v vs IH]; intros done r rest Hi Hrem; simpl.
  - reflexivity.
  - rewrite words_cons, <- app_assoc in Hrem.
    destruct (bytes_read_word r v
                ((done ++ 0 :: replicate (length vs) 0) !!! Z.to_nat (Z.of_nat (length done)))
                _ Hi Hrem) as [-> Hrem'].
    rewrite Nat2Z.id, insert_app_r_alt, Nat.sub_diag by lia. simpl.
    replace (Z.of_nat (length done) + 1) with (Z.of_nat (length (done ++ [u32 v])))
      by (rewrite length_app; simpl; lia).
    replace (done ++ u32 v :: replicate (length vs) 0)
      with ((done ++ [u32 v]) ++ replicate (length vs) 0)
      by (now rewrite <- app_assoc).
    replace (done ++ u32 v :: map u32 vs) with ((done ++ [u32 v]) ++ map u32 vs)
      by (now rewrite <- app_assoc).
    apply (IH (done ++ [u32 v]) _ rest); [simpl; lia|exact Hrem'].
Qed.

(** [UnmarshalBinary] on the two header words followed by as many words
    as the size word asks for, whatever the size word is. *)
Lemma UnmarshalBinary_full (recv : ResourceIdsBlock) (sz : Z) (vs : list Z)
    (rest : list byte) :
  Z.of_nat (length vs) = id_count (u32 sz) ->
  UnmarshalBinary recv (PutUint32 CHUNK_RESOURCEIDS ++ PutUint32 sz ++ words vs ++ rest)
  = ({| Block := {| Type_ := CHUNK_RESOURCEIDS; Size := u32 sz;
                    Offset := Offset (Block recv) |};
        Ids := map u32 vs |}, None).
Proof.
  intros Hlen. unfold UnmarshalBinary.
  destruct (bytes_read_word (bytes.NewReader
              (PutUint32 CHUNK_RESOURCEIDS ++ PutUint32 sz ++ words vs ++ rest))
              CHUNK_RESOURCEIDS (Type_ (Block recv)) (PutUint32 sz ++ words vs ++ rest))
    as [-> Hrem]; [simpl; lia|reflexivity|].
  change (u32 CHUNK_RESOURCEIDS) with CHUNK_RESOURCEIDS.
  rewrite Z.eqb_refl. simpl negb. cbv iota.
  match goal with
  | |- context [binary_Read_uint32 ?old ?r] =>
      destruct (bytes_read_word r sz old (words vs ++ rest)) as [-> Hrem2];
        [simpl; lia|exact Hrem|]
  end.
  rewrite <- Hlen, Nat2Z.id.
  rewrite (UnmarshalBinary_loop_full vs [] _ rest); [reflexivity|simpl; lia|exact Hrem2].
Qed.

(** Closed range facts are decided by evaluation. *)
Ltac u32_solve :=
  unfold is_u32; vm_compute; split; [discriminate | reflexivity].

Lemma Forall_u32_map (vs : list Z) : Forall is_u32 vs -> map u32 vs = vs.
Proof.
  induction 1 as [|v vs Hv _ IH]; [reflexivity|].
  simpl. now rewrite (u32_small v Hv), IH.
Qed.

(** C1, as stated, fails: a table whose stored [Size] disagrees with its
    id list is encoded with that size and decoded without its ids. *)
Lemma C1_stale_size_breaks_roundtrip : ~ roundtrips stale_block.
Proof.
  intros [data [Hm Hu]].
  vm_compute in Hm. injection Hm as <-.
  vm_compute in Hu. discriminate Hu.
Qed.

(** C1 (amended): for every table whose [Type] is [CHUNK_RESOURCEIDS],
    whose stored [Size] gives the length of its id list ([Size/4 - 2] in
    [uint32] arithmetic), decoding the encoding into a receiver gives the
    table back, with the receiver's [Offset] (the offset is not encoded). *)
Theorem C1_roundtrip (t recv : ResourceIdsBlock) :
  Type_ (Block t) = CHUNK_RESOURCEIDS ->
  is_u32 (Size (Block t)) ->
  Forall is_u32 (Ids t) ->
  id_count (Size (Block t)) = Z.of_nat (length (Ids t)) ->
  exists data,
    MarshalBinary t = (data, None)
    /\ UnmarshalBinary recv data = (set_Offset (Offset (Block recv)) t, None).
Proof.
  intros Hty Hsz Hids Hcount.
  eexists. split; [apply MarshalBinary_spec|].
  rewrite Hty.
  rewrite <- (app_nil_r (words (Ids t))).
  rewrite UnmarshalBinary_full
    by (rewrite (u32_small _ Hsz); symmetry; exact Hcount).
  rewrite (u32_small _ Hsz), (Forall_u32_map _ Hids).
  unfold set_Offset. now rewrite Hty.
Qed.

Lemma C1_roundtrip_witness :
  exists data,
    MarshalBinary
      {| Block := {| Type_ := CHUNK_RESOURCEIDS; Size := 16; Offset := 0 |};
         Ids := [1; 258] |} = (data, None)
    /\ UnmarshalBinary ResourceIdsBlock_zero data
       = ({| Block := {| Type_ := CHUNK_RESOURCEIDS; Size := 16; Offset := 0 |};
             Ids := [1; 258] |}, None).
Proof.
  apply (C1_roundtrip
           {| Block := {| Type_ := CHUNK_RESOURCEIDS; Size := 16; Offset := 0 |};
              Ids := [1; 258] |} ResourceIdsBlock_zero).
  - reflexivity.
  - u32_solve.
  - constructor; [u32_solve|]. constructor; [u32_solve|]. constructor.
  - reflexivity.
Defined.

(** C3, as stated, fails: the size word written for [stale_block] is the
    stored 8, not 8 + 4 * 1. *)
Lemma C3_stored_size_is_written :
  size_word (MarshalBinary stale_block).1
  <> 8 + 4 * Z.of_nat (length (Ids stale_block)).
Proof. vm_compute. discriminate. Qed.

(** C3 (amended): encoding writes the stored [Type] and the stored [Size]
    as the two header words, followed by the ids; the size is not
    recomputed, so the size word is [8 + 4*count] exactly when the stored
    [Size] is. *)
Theorem C3_header_words (b : ResourceIdsBlock) :
  is_u32 (Type_ (Block b)) ->
  is_u32 (Size (Block b)) ->
  exists data,
    MarshalBinary b = (data, None)
    /\ Uint32 (take 4 data) = Type_ (Block b)
    /\ size_word data = Size (Block b)
    /\ drop 8 data = words (Ids b)
    /\ (size_word data = 8 + 4 * Z.of_nat (length (Ids b))
        <-> Size (Block b) = 8 + 4 * Z.of_nat (length (Ids b))).
Proof.
  intros Hty Hsz. eexists. split; [apply MarshalBinary_spec|].
  assert (Hsize : size_word (PutUint32 (Type_ (Block b)) ++
                    PutUint32 (Size (Block b)) ++ words (Ids b))
                  = Size (Block b)).
  { unfold size_word.
    rewrite (drop_app_length' (PutUint32 (Type_ (Block b)))) by reflexivity.
    rewrite (take_app_length' (PutUint32 (Size (Block b)))) by reflexivity.
    rewrite Uint32_PutUint32. now apply u32_small. }
  split; [|split; [exact Hsize|split]].
  - rewrite (take_app_length' (PutUint32 (Type_ (Block b)))) by reflexivity.
    rewrite Uint32_PutUint32. now apply u32_small.
  - rewrite app_assoc. apply drop_app_length'. reflexivity.
  - now rewrite Hsize.
Qed.

Lemma C3_header_words_witness :
  exists data,
    MarshalBinary stale_block = (data, None)
    /\ Uint32 (take 4 data) = CHUNK_RESOURCEIDS
    /\ size_word data = 8
    /\ drop 8 data = words [7]
    /\ (size_word data = 8 + 4 * 1 <-> 8 = 8 + 4 * 1).
Proof.
  apply (C3_header_words stale_block); u32_solve.
Defined.

(** C10: for every block, [MarshalBinary] returns a nil error and
    [8 + 4*len(Ids)] bytes: the stored [Type] word, the stored [Size] word
    and the ids in order, each as four little-endian bytes (least
    significant byte first, so that each word is read back from its four
    bytes). *)
Theorem C10_MarshalBinary_bytes (b : ResourceIdsBlock) :
  exists data,
    MarshalBinary b = (data, None)
    /\ Z.of_nat (length data) = 8 + 4 * Z.of_nat (length (Ids b))
    /\ data = PutUint32 (Type_ (Block b)) ++ PutUint32 (Size (Block b))
              ++ concat (map PutUint32 (Ids b))
    /\ Uint32 (take 4 data) = u32 (Type_ (Block b))
    /\ Uint32 (take 4 (drop 4 data)) = u32 (Size (Block b))
    /\ map Uint32 (map PutUint32 (Ids b)) = map u32 (Ids b).
Proof.
  eexists. split; [apply MarshalBinary_spec|].
  split; [|split; [reflexivity|split; [|split]]].
  - rewrite !length_app, !PutUint32_length, words_length. lia.
  - rewrite (take_app_length' (PutUint32 (Type_ (Block b)))) by reflexivity.
    apply Uint32_PutUint32.
  - rewrite (drop_app_length' (PutUint32 (Type_ (Block b)))) by reflexivity.
    rewrite (take_app_length' (PutUint32 (Size (Block b)))) by reflexivity.
    apply Uint32_PutUint32.
  - rewrite map_map. apply map_ext. intros id. apply Uint32_PutUint32.
Qed.

(** The id at index [k] is the word at byte offset [8 + 4*k]. *)
Lemma MarshalBinary_id_word (b : ResourceIdsBlock) (k : nat) (id : Z) :
  Ids b !! k = Some id ->
  Uint32 (take 4 (drop (8 + 4 * k) (MarshalBinary b).1)) = u32 id.
Proof.
  intros Hk. rewrite MarshalBinary_spec. cbn [fst].
  rewrite app_assoc, <- drop_drop.
  rewrite (drop_app_length' (PutUint32 _ ++ PutUint32 _)) by reflexivity.
  rewrite <- (app_nil_r (words (Ids b))).
  rewrite (words_lookup _ _ _ _ Hk). apply Uint32_PutUint32.
Qed.

(** Two more tables that the round trip does not give back: one with
    another [Type], which the decoder refuses, and one with an [Offset],
    which is not encoded. *)
Example wrong_type_is_refused :
  UnmarshalBinary ResourceIdsBlock_zero
    (MarshalBinary {| Block := {| Type_ := CHUNK_STRINGS; Size := 8; Offset := 0 |};
                      Ids := [] |}).1
  = ({| Block := {| Type_ := CHUNK_STRINGS; Size := 0; Offset := 0 |}; Ids := [] |},
     Some (ErrExpectedType CHUNK_RESOURCEIDS CHUNK_STRINGS)).
Proof. vm_compute. reflexivity. Qed.

Example offset_is_not_encoded :
  UnmarshalBinary ResourceIdsBlock_zero
    (MarshalBinary {| Block := {| Type_ := CHUNK_RESOURCEIDS; Size := 12; Offset := 8 |};
                      Ids := [7] |}).1
  = ({| Block := {| Type_ := CHUNK_RESOURCEIDS; Size := 12; Offset := 0 |};
        Ids := [7] |}, None).
Proof. vm_compute. reflexivity. Qed.

(** ** [ReadResourceIdsBlock] over any reader *)

Section AnyReader.

Context {R : Type} `{ReadSeeker R}.

Lemma read_results_length (n : nat) :
  forall r, length (read_results n r).1 = n.
Proof.
  induction n as [|n IH]; intros r; simpl; [reflexivity|].
  destruct (binary_Read_uint32 0 r) as [[v e] r'].
  specialize (IH r'). destruct (read_results n r') as [rs r'']. simpl in *.
  now rewrite IH.
Qed.

(** The value a failed read leaves behind is the old one. *)
Lemma binary_Read_uint32_old (old : Z) (r : R) :
  binary_Read_uint32 old r
  = let '((v, e), r') := binary_Read_uint32 0 r in
    ((match e with None => v | Some _ => old end, e), r').
Proof.
  unfold binary_Read_uint32. destruct (io_ReadFull 4 r) as [[bs|e] r']; reflexivity.
Qed.

(** The loop fills the zeroed ids from the left: an id is the word read
    for it, or stays zero when its read fails. *)
Lemma ReadResourceIdsBlock_loop_spec (n : nat) :
  forall (done : list Z) (r : R),
  ReadResourceIdsBlock_loop n (Z.of_nat (length done)) (done ++ replicate n 0) r
  = (done ++ map (default 0) (read_results n r).1, (read_results n r).2).
Proof.
  induction n as [|n IH]; intros done r; simpl.
  - reflexivity.
  - rewrite Nat2Z.id, binary_Read_uint32_old.
    rewrite (list_lookup_total_middle done _ 0 (length done) eq_refl).
    destruct (binary_Read_uint32 0 r) as [[v e] r'].
    rewrite insert_app_r_alt, Nat.sub_diag by lia. simpl.
    set (x := match e with None => v | Some _ => 0 end).
    replace (Z.of_nat (length done) + 1) with (Z.of_nat (length (done ++ [x])))
      by (rewrite length_app; simpl; lia).
    replace (done ++ x :: replicate n 0) with ((done ++ [x]) ++ replicate n 0)
      by (now rewrite <- app_assoc).
    rewrite IH. destruct (read_results n r') as [rs r'']. simpl.
    rewrite <- app_assoc. subst x. destruct e; reflexivity.
Qed.

Lemma ReadResourceIdsBlock_spec (reader : R) (size offset : Z) :
  let n := Z.to_nat (id_count size) in
  let sought := (Seek offset 0 reader).2 in
  ReadResourceIdsBlock reader size offset
  = (({| Block := {| Type_ := CHUNK_RESOURCEIDS; Size := size; Offset := offset |};
         Ids := map (default 0) (read_results n sought).1 |}, None),
     (read_results n sought).2).
Proof.
  intros n sought. unfold ReadResourceIdsBlock, seek. subst sought.
  destruct (Seek offset 0 reader) as [res reader']. simpl.
  fold n.
  pose proof (ReadResourceIdsBlock_loop_spec n [] reader') as Hloop.
  change (Z.of_nat (length (@nil Z))) with 0 in Hloop.
  change ([] ++ replicate n 0) with (replicate n 0) in Hloop.
  rewrite Hloop. reflexivity.
Qed.

End AnyReader.

Lemma ReadResourceIdsBlock_no_error
    {R : Type} `{ReadSeeker R} (reader : R) (size offset : Z) :
  (ReadResourceIdsBlock reader size offset).1.2 = None
  /\ length (Ids (ReadResourceIdsBlock reader size offset).1.1)
     = Z.to_nat (id_count size).
Proof.
  rewrite ReadResourceIdsBlock_spec. simpl.
  split; [reflexivity|]. rewrite length_map. apply read_results_length.
Qed.

(** C9: for every reader, size and offset, [ReadResourceIdsBlock] returns
    a nil error; the results of the seek and of the reads are dropped, and
    an id is the word read for it or, when its read fails, the zero that
    [make] put there. *)
Theorem C9_ReadResourceIdsBlock_never_fails
    {R : Type} `{ReadSeeker R} (reader : R) (size offset : Z) :
  let out := (ReadResourceIdsBlock reader size offset).1 in
  let reads := (read_results (Z.to_nat (id_count size)) (Seek offset 0 reader).2).1 in
  out.2 = None
  /\ Block out.1 = {| Type_ := CHUNK_RESOURCEIDS; Size := size; Offset := offset |}
  /\ length (Ids out.1) = Z.to_nat (id_count size)
  /\ Ids out.1 = map (default 0) reads.
Proof.
  intros out reads. subst out. rewrite ReadResourceIdsBlock_spec. simpl. fold reads.
  assert (Hlen : length reads = Z.to_nat (id_count size))
    by apply read_results_length.
  split; [reflexivity|]. split; [reflexivity|].
  split; [now rewrite length_map|reflexivity].
Qed.

(** *** On a [bytes.Reader] *)

Lemma read_results_app {R : Type} `{ReadSeeker R} (a b : nat) :
  forall r : R,
  read_results (a + b) r
  = ((read_results a r).1 ++ (read_results b (read_results a r).2).1,
     (read_results b (read_results a r).2).2).
Proof.
  induction a as [|a IH]; intros r; simpl.
  - now destruct (read_results b r).
  - destruct (binary_Read_uint32 0 r) as [[v e] r'].
    rewrite IH. destruct (read_results a r') as [rs r'']. reflexivity.
Qed.

Lemma bytes_read_results_words (vs : list Z) :
  forall (r : bytes.Reader) (rest : list byte),
  0 <= bytes.i r ->
  bytes.remaining r = words vs ++ rest ->
  read_results (length vs) r
  = (map Some (map u32 vs),
     {| bytes.s := bytes.s r; bytes.i := bytes.i r + 4 * Z.of_nat (length vs) |}).
Proof.
  induction vs as [|v vs IH]; intros r rest Hi Hrem.
  - simpl. destruct r as [s i]. simpl. do 2 f_equal. lia.
  - rewrite words_cons, <- app_assoc in Hrem.
    destruct (bytes_read_word r v 0 _ Hi Hrem) as [Hread Hrem'].
    cbn [length read_results]. rewrite Hread.
    rewrite (IH _ rest); [|simpl; lia|exact Hrem'].
    simpl. do 2 f_equal. lia.
Qed.

Lemma bytes_read_results_short (n : nat) :
  forall r : bytes.Reader,
  0 <= bytes.i r ->
  (length (bytes.remaining r) < 4)%nat ->
  (read_results n r).1 = replicate n None.
Proof.
  induction n as [|n IH]; intros r Hi Hshort; simpl; [reflexivity|].
  destruct (bytes_read_short r 0 Hi Hshort) as (e & r' & -> & Hi' & _ & Hshort').
  specialize (IH r' Hi' Hshort').
  destruct (read_results n r') as [rs r'']. simpl in *. now rewrite IH.
Qed.

Lemma bytes_Seek_start (offset : Z) (r : bytes.Reader) :
  0 <= offset ->
  Seek offset 0 r = ((offset, None), {| bytes.s := bytes.s r; bytes.i := offset |}).
Proof.
  intros Ho. simpl. unfold bytes.Seek. simpl.
  destruct (Z.ltb_spec offset 0); [lia|reflexivity].
Qed.

Lemma bytes_remaining_after (pre rest : list byte) :
  bytes.remaining {| bytes.s := pre ++ rest; bytes.i := Z.of_nat (length pre) |}
  = rest.
Proof.
  unfold bytes.remaining. simpl. rewrite Nat2Z.id.
  apply drop_app_length.
Qed.

(** On an input cut short (fewer than four bytes after the last whole
    word), [ReadResourceIdsBlock] returns the words that are there followed
    by zeros, and a nil error. *)
Lemma ReadResourceIdsBlock_truncated (pre tail : list byte) (vs : list Z)
    (m : nat) (size : Z) :
  (length tail < 4)%nat ->
  Z.to_nat (id_count size) = (length vs + m)%nat ->
  (ReadResourceIdsBlock (bytes.NewReader (pre ++ words vs ++ tail)) size
                        (Z.of_nat (length pre))).1
  = ({| Block := {| Type_ := CHUNK_RESOURCEIDS; Size := size;
                    Offset := Z.of_nat (length pre) |};
        Ids := map u32 vs ++ replicate m 0 |}, None).
Proof.
  intros Htail Hcount.
  rewrite ReadResourceIdsBlock_spec. cbn [fst].
  rewrite bytes_Seek_start by lia. cbn [snd bytes.NewReader bytes.s].
  rewrite Hcount, read_results_app.
  rewrite (bytes_read_results_words vs _ tail);
    [|simpl; lia|apply bytes_remaining_after].
  cbn [fst snd].
  rewrite bytes_read_results_short.
  - f_equal. f_equal. rewrite map_app. f_equal.
    + rewrite map_map. exact (List.map_id (map u32 vs)).
    + clear Hcount. induction m as [|m IHm]; [reflexivity|]. simpl. now rewrite IHm.
  - simpl. lia.
  - erewrite bytes_read_words; [exact Htail|simpl; lia|apply bytes_remaining_after].
Qed.

(** On a reader whose every operation fails, all ids are zero. *)
Lemma ReadResourceIdsBlock_unreadable (size offset : Z) :
  (ReadResourceIdsBlock broken size offset).1
  = ({| Block := {| Type_ := CHUNK_RESOURCEIDS; Size := size; Offset := offset |};
        Ids := replicate (Z.to_nat (id_count size)) 0 |}, None).
Proof.
  rewrite ReadResourceIdsBlock_spec. cbn [fst]. do 2 f_equal.
  generalize (Z.to_nat (id_count size)) as n.
  generalize ((Seek offset 0 broken).2) as r.
  intros r n. revert r. induction n as [|n IH]; intros r; [reflexivity|].
  simpl. specialize (IH r). destruct (read_results n r). simpl in *. now rewrite IH.
Qed.

(** C4, as stated, fails: a chunk of size 13, which is not a multiple of
    four, is decoded by both decoders without an error, with
    [13/4 - 2 = 1] id. *)
Lemma C4_size_13_is_decoded :
  13 mod 4 <> 0
  /\ UnmarshalBinary ResourceIdsBlock_zero
       (PutUint32 CHUNK_RESOURCEIDS ++ PutUint32 13 ++ PutUint32 99)
     = ({| Block := {| Type_ := CHUNK_RESOURCEIDS; Size := 13; Offset := 0 |};
           Ids := [99] |}, None)
  /\ (ReadResourceIdsBlock
        (bytes.NewReader (PutUint32 CHUNK_RESOURCEIDS ++ PutUint32 13 ++ PutUint32 99))
        13 8).1
     = ({| Block := {| Type_ := CHUNK_RESOURCEIDS; Size := 13; Offset := 8 |};
           Ids := [99] |}, None).
Proof. split; [discriminate|]. split; vm_compute; reflexivity. Qed.

(** C4 (amended): the decoders do not check the declared size. For every
    size, on an input that holds [size/4 - 2] words ([uint32] arithmetic:
    the division truncates and the subtraction wraps around below 8),
    [UnmarshalBinary] and [ReadResourceIdsBlock] read exactly these words
    as the ids and return a nil error; when the size is a multiple of four
    and at least 8 this count is [size/4 - 2], and may be zero. *)
Theorem C4_ids_read_for_any_size (size : Z) (vs : list Z) (pre rest : list byte)
    (recv : ResourceIdsBlock) :
  is_u32 size ->
  Forall is_u32 vs ->
  Z.of_nat (length vs) = id_count size ->
  UnmarshalBinary recv
    (PutUint32 CHUNK_RESOURCEIDS ++ PutUint32 size ++ words vs ++ rest)
  = ({| Block := {| Type_ := CHUNK_RESOURCEIDS; Size := size;
                    Offset := Offset (Block recv) |};
        Ids := vs |}, None)
  /\ (ReadResourceIdsBlock (bytes.NewReader (pre ++ words vs ++ rest)) size
                           (Z.of_nat (length pre))).1
     = ({| Block := {| Type_ := CHUNK_RESOURCEIDS; Size := size;
                       Offset := Z.of_nat (length pre) |};
           Ids := vs |}, None)
  /\ (size mod 4 = 0 -> 8 <= size -> Z.of_nat (length vs) = size / 4 - 2).
Proof.
  intros Hsize Hvs Hcount. split; [|split].
  - rewrite UnmarshalBinary_full by (now rewrite (u32_small _ Hsize)).
    now rewrite (u32_small _ Hsize), (Forall_u32_map _ Hvs).
  - rewrite ReadResourceIdsBlock_spec. cbn [fst].
    rewrite bytes_Seek_start by lia. cbn [snd bytes.NewReader bytes.s].
    rewrite <- Hcount, Nat2Z.id.
    rewrite (bytes_read_results_words vs _ rest);
      [|simpl; lia|apply bytes_remaining_after].
    cbn [fst]. rewrite map_map, (Forall_u32_map _ Hvs).
    do 2 f_equal. exact (List.map_id vs).
  - intros Hmod Hge. rewrite Hcount. unfold id_count, u32.
    apply Z.mod_small. unfold is_u32 in Hsize.
    Z.to_euclidean_division_equations. lia.
Qed.

Lemma C4_ids_read_for_any_size_witness :
  UnmarshalBinary ResourceIdsBlock_zero
    (PutUint32 CHUNK_RESOURCEIDS ++ PutUint32 16 ++ words [5; 6] ++ [])
  = ({| Block := {| Type_ := CHUNK_RESOURCEIDS; Size := 16; Offset := 0 |};
        Ids := [5; 6] |}, None)
  /\ (ReadResourceIdsBlock
        (bytes.NewReader
           ((PutUint32 CHUNK_RESOURCEIDS ++ PutUint32 16) ++ words [5; 6] ++ []))
        16 8).1
     = ({| Block := {| Type_ := CHUNK_RESOURCEIDS; Size := 16; Offset := 8 |};
           Ids := [5; 6] |}, None)
  /\ (16 mod 4 = 0 -> 8 <= 16 -> 2 = 16 / 4 - 2).
Proof.
  apply (C4_ids_read_for_any_size 16 [5; 6]
           (PutUint32 CHUNK_RESOURCEIDS ++ PutUint32 16) [] ResourceIdsBlock_zero).
  - u32_solve.
  - constructor; [u32_solve|]. constructor; [u32_solve|]. constructor.
  - reflexivity.
Defined.

(** Below 8 the count wraps around: a size of 4 asks for [2^32 - 1] ids.
    [ReadResourceIdsBlock] still returns a nil error; [UnmarshalBinary]
    fails only because a short input runs out. *)
Lemma ReadResourceIdsBlock_size_4 {R : Type} `{ReadSeeker R} (reader : R)
    (offset : Z) :
  let out := (ReadResourceIdsBlock reader 4 offset).1 in
  out.2 = None /\ Z.of_nat (length (Ids out.1)) = 2 ^ 32 - 1.
Proof.
  destruct (ReadResourceIdsBlock_no_error reader 4 offset) as (He & Hl).
  split; [exact He|]. rewrite Hl.
  change (id_count 4) with (2 ^ 32 - 1). rewrite Z2Nat.id; [reflexivity|discriminate].
Qed.

Lemma UnmarshalBinary_size_4_runs_out (recv : ResourceIdsBlock) :
  UnmarshalBinary recv (PutUint32 CHUNK_RESOURCEIDS ++ PutUint32 4)
  = ({| Block := {| Type_ := CHUNK_RESOURCEIDS; Size := 4;
                    Offset := Offset (Block recv) |};
        Ids := replicate (Z.to_nat (2 ^ 32 - 1)) 0 |}, Some EOF).
Proof.
  unfold UnmarshalBinary.
  destruct (bytes_read_word (bytes.NewReader (PutUint32 CHUNK_RESOURCEIDS ++ PutUint32 4))
              CHUNK_RESOURCEIDS (Type_ (Block recv)) (PutUint32 4))
    as [-> Hrem]; [simpl; lia|reflexivity|].
  change (u32 CHUNK_RESOURCEIDS) with CHUNK_RESOURCEIDS.
  rewrite Z.eqb_refl. simpl negb. cbv iota.
  match goal with
  | |- context [binary_Read_uint32 ?old ?r] =>
      destruct (bytes_read_word r 4 old []) as [-> _];
        [simpl; lia|now rewrite Hrem, app_nil_r|]
  end.
  change (u32 4) with 4. change (id_count 4) with (2 ^ 32 - 1).
  destruct (Z.to_nat (2 ^ 32 - 1)) as [|n] eqn:Hn; [lia|].
  reflexivity.
Qed.

(** ** The chunk loop over any reader *)

Section ChunkLoop.

Context {R : Type} `{ReadSeeker R}.

(** An iteration that goes on has advanced the offset by the size word in
    effect, modulo [2^32], sought there, and kept the document's size. *)
Lemma advance_Next (reader : R) (axml : AXML) (blocktype sz offset : Z)
    (stdout : list printed) :
  advance reader axml blocktype sz offset stdout
  = Next {| l_reader := (Seek (u32 (offset + sz)) 0 reader).2;
            l_axml := axml; l_blocktype := blocktype; l_size := sz;
            l_offset := u32 (offset + sz); l_stdout := stdout |}.
Proof.
  unfold advance, seek. now destruct (Seek (u32 (offset + sz)) 0 reader).
Qed.

Lemma read_strings_chunk_size (axml : AXML) (r : R) :
  size (read_strings_chunk axml r).1 = size axml.
Proof.
  unfold read_strings_chunk, bind, ret.
  repeat match goal with
  | |- context [let '(_, _) := ?m in _] => destruct m
  end.
  reflexivity.
Qed.

Lemma ReadAXML_body_Next (l l' : Loop R) :
  ReadAXML_body l = Next l' ->
  size (l_axml l') = size (l_axml l)
  /\ l_offset l' = u32 (l_offset l + l_size l')
  /\ exists r : R, l_reader l' = (Seek (l_offset l') 0 r).2.
Proof.
  unfold ReadAXML_body, read_start_tag.
  destruct (read_uint32 (l_blocktype l) (l_reader l)) as [blocktype r1].
  destruct (read_uint32 (l_size l) r1) as [sz r2].
  pose proof (read_strings_chunk_size (l_axml l) r2) as Hsize.
  destruct (read_strings_chunk (l_axml l) r2) as [axml' r3].
  destruct (read_uint32 0 r2) as [lineNumber r4].
  destruct (read_uint32 0 r4) as [skip r5].
  destruct (read_uint32 0 r5) as [nsIdx r6].
  destruct (read_uint32 0 r6) as [nameIdx r7].
  destruct (read_uint32 0 r7) as [flag r8].
  destruct (read_unsized 0 r8) as [attributeCount r9].
  rewrite !advance_Next.
  repeat match goal with
  | |- context [if ?c then _ else _] => destruct c
  | |- context [match ?o with Some _ => _ | None => _ end] => destruct o
  end;
  rewrite ?advance_Next;
  intros Heq; try discriminate Heq;
  assert (Hl' := f_equal (fun s => match s with Next x => x | Done _ _ => l' end) Heq);
  cbv beta iota in Hl'; rewrite <- Hl'; cbn;
  (split; [first [reflexivity | exact Hsize]|split; [reflexivity|eauto]]).
Qed.

Lemma ReadAXML_loop_exit (fuel : nat) (l : Loop R) :
  size (l_axml l) <= l_offset l ->
  ReadAXML_loop fuel l = Some (Returned (l_axml l) None, l_stdout l).
Proof.
  intros Hle. destruct fuel; simpl;
    destruct (Z.ltb_spec (l_offset l) (size (l_axml l))); (lia || reflexivity).
Qed.

Lemma ReadAXML_loop_Done (fuel : nat) (l : Loop R) (res : result)
    (stdout : list printed) :
  l_offset l < size (l_axml l) ->
  ReadAXML_body l = Done res stdout ->
  ReadAXML_loop (S fuel) l = Some (res, stdout).
Proof.
  intros Hlt Hbody. simpl. rewrite Hbody.
  destruct (Z.ltb_spec (l_offset l) (size (l_axml l))); (lia || reflexivity).
Qed.

Lemma ReadAXML_loop_Next (fuel : nat) (l l' : Loop R) :
  l_offset l < size (l_axml l) ->
  ReadAXML_body l = Next l' ->
  ReadAXML_loop (S fuel) l = ReadAXML_loop fuel l'.
Proof.
  intros Hlt Hbody. simpl. rewrite Hbody.
  destruct (Z.ltb_spec (l_offset l) (size (l_axml l))); (lia || reflexivity).
Qed.

Lemma ReadAXML_body_unknown (l : Loop R) :
  recognized (chunk_type_read l) = false ->
  ReadAXML_body l
  = Done (Returned (l_axml l) (Some (ErrUnknownChunkType (chunk_type_read l))))
         (l_stdout l).
Proof.
  unfold recognized, chunk_type_read, chunk_types, ReadAXML_body.
  destruct (read_uint32 (l_blocktype l) (l_reader l)) as [blocktype r1].
  destruct (read_uint32 (l_size l) r1) as [sz r2].
  cbn [fst existsb]. intros Hrec.
  repeat (apply orb_false_elim in Hrec as [-> Hrec]).
  reflexivity.
Qed.

Lemma ReadAXML_loop_advancing (n : nat) :
  forall l : Loop R,
  distance l <= Z.of_nat n ->
  advancing n l = true ->
  exists res, ReadAXML_loop n l = Some res.
Proof.
  unfold distance.
  induction n as [|n IH]; intros l Hdist Hadv.
  - eexists. apply ReadAXML_loop_exit. lia.
  - destruct (Z.ltb_spec (l_offset l) (size (l_axml l))) as [Hlt|Hge].
    + simpl in Hadv.
      destruct (Z.ltb_spec (l_offset l) (size (l_axml l))); [|lia].
      destruct (ReadAXML_body l) as [l'|res stdout] eqn:Hbody.
      * apply andb_prop in Hadv as [Hmove Hadv]. apply Z.ltb_lt in Hmove.
        destruct (ReadAXML_body_Next l l' Hbody) as (Hsize & _ & _).
        rewrite (ReadAXML_loop_Next n l l' Hlt Hbody).
        apply IH; [lia|exact Hadv].
      * exists (res, stdout). apply ReadAXML_loop_Done; assumption.
    + eexists. apply ReadAXML_loop_exit. lia.
Qed.

(** For [uint32] values, the offset moves forward exactly when the size
    word is not zero and the sum does not wrap around. *)
Lemma ReadAXML_body_moves_forward (l l' : Loop R) :
  ReadAXML_body l = Next l' ->
  is_u32 (l_offset l) ->
  is_u32 (l_size l') ->
  l_offset l < l_offset l'
  <-> 0 < l_size l' /\ l_offset l + l_size l' < 2 ^ 32.
Proof.
  intros Hbody Hoff Hsz.
  destruct (ReadAXML_body_Next l l' Hbody) as (_ & -> & _).
  unfold is_u32, u32 in *.
  destruct (Z.lt_ge_cases (l_offset l + l_size l') (2 ^ 32)) as [Hsmall|Hwrap].
  - rewrite Z.mod_small by lia. lia.
  - replace (l_offset l + l_size l')
      with (l_offset l + l_size l' - 2 ^ 32 + 1 * 2 ^ 32) by lia.
    rewrite Z.mod_add by lia. rewrite Z.mod_small by lia. lia.
Qed.

End ChunkLoop.

(** The bounded loop computes the relation. *)
Lemma ReadAXML_loop_runs {R : Type} `{ReadSeeker R} (fuel : nat) :
  forall (l : Loop R) (res : result * list printed),
  ReadAXML_loop fuel l = Some res -> runs l res.
Proof.
  induction fuel as [|fuel IH]; intros l res; simpl;
    destruct (Z.ltb_spec (l_offset l) (size (l_axml l))) as [Hlt|Hge];
    try discriminate;
    try (intros [= <-]; now apply runs_exit).
  destruct (ReadAXML_body l) as [l'|r out] eqn:Hbody.
  - intros Hloop. eapply runs_Next; eauto.
  - intros [= <-]. now apply runs_Done.
Qed.

Lemma runs_ReadAXML_loop {R : Type} `{ReadSeeker R} (l : Loop R)
    (res : result * list printed) :
  runs l res -> exists fuel, ReadAXML_loop fuel l = Some res.
Proof.
  induction 1 as [l Hge|l res out Hlt Hbody|l l' res Hlt Hbody _ [fuel IH]].
  - exists O. now apply ReadAXML_loop_exit.
  - exists 1%nat. now apply ReadAXML_loop_Done.
  - exists (S fuel). now rewrite (ReadAXML_loop_Next fuel l l').
Qed.

(** C6: in an iteration whose chunk type word is none of the types the
    decoder has a case for, the loop returns the "unknown chunk type"
    error with that type word; the call ends there, the chunk is not
    skipped. *)
Theorem C6_unknown_chunk_type_fails {R : Type} `{ReadSeeker R}
    (l : Loop R) (fuel : nat) :
  l_offset l < size (l_axml l) ->
  recognized (chunk_type_read l) = false ->
  ReadAXML_loop (S fuel) l
  = Some (Returned (l_axml l) (Some (ErrUnknownChunkType (chunk_type_read l))),
          l_stdout l).
Proof.
  intros Hlt Hrec. apply ReadAXML_loop_Done; [exact Hlt|].
  now apply ReadAXML_body_unknown.
Qed.

(** C7 (amended): when each iteration that goes on moves the offset
    forward (its size word is not zero and [offset + size] stays below
    [2^32]), the loop ends, within as many iterations as the offset is
    away from the document's size: it stops when the offset has reached
    the size, or in the first iteration that fails. *)
Theorem C7_loop_ends_when_advancing {R : Type} `{ReadSeeker R}
    (l : Loop R) (n : nat) :
  distance l <= Z.of_nat n ->
  advancing n l = true ->
  exists res, runs l res /\ ReadAXML_loop n l = Some res.
Proof.
  intros Hdist Hadv.
  destruct (ReadAXML_loop_advancing n l Hdist Hadv) as [res Hres].
  exists res. split; [|exact Hres]. now apply (ReadAXML_loop_runs n).
Qed.

(** ** [ReadAXML] on a [bytes.Reader] *)

Lemma bytes_read_uint32 (r : bytes.Reader) (v : Z) (rest : list byte) :
  0 <= bytes.i r ->
  bytes.remaining r = PutUint32 v ++ rest ->
  (forall old, read_uint32 old r = (u32 v, next4 r))
  /\ 0 <= bytes.i (next4 r)
  /\ bytes.remaining (next4 r) = rest.
Proof.
  intros Hi Hrem. split; [|split].
  - intros old. unfold read_uint32.
    destruct (bytes_read_word r v old rest Hi Hrem) as [-> _]. reflexivity.
  - simpl. lia.
  - now destruct (bytes_read_word r v 0 rest Hi Hrem) as [_ Hrem'].
Qed.

Lemma ReadAXML_enter_bytes (total : Z) (chunks : list byte) :
  let data := PutUint32 CHUNK_AXML_FILE ++ PutUint32 total ++ chunks in
  ReadAXML_enter (bytes.NewReader data) = Next (entry data (u32 total)).
Proof.
  intros data. unfold ReadAXML_enter.
  destruct (bytes_read_uint32 (bytes.NewReader data) CHUNK_AXML_FILE
              (PutUint32 total ++ chunks)) as (-> & Hi & Hrem);
    [simpl; lia|reflexivity|].
  destruct (bytes_read_uint32 _ total chunks Hi Hrem) as (-> & _ & _).
  reflexivity.
Qed.

(** Reading the next word of a reader whose remaining input is known. *)
Ltac read_word Hi Hrem :=
  rewrite ?words_cons, <- ?app_assoc in Hrem;
  let Hread := fresh "Hread" in
  let Hi' := fresh "Hi" in
  let Hrem' := fresh "Hrem" in
  destruct (bytes_read_uint32 _ _ _ Hi Hrem) as (Hread & Hi' & Hrem');
  rewrite Hread; clear Hread Hi Hrem;
  rename Hi' into Hi; rename Hrem' into Hrem.

(** The iteration on a start tag whose seven words are all there. *)
Lemma ReadAXML_body_start_tag (l : Loop bytes.Reader)
    (sz lineNumber skip nsIdx nameIdx flag : Z) (rest : list byte) :
  0 <= bytes.i (l_reader l) ->
  bytes.remaining (l_reader l)
  = words [CHUNK_XML_START_TAG; sz; lineNumber; skip; nsIdx; nameIdx; flag] ++ rest ->
  ReadAXML_body l
  = if negb (u32 skip =? SKIP_BLOCK)
    then Done (Returned (l_axml l) (Some ErrExpectedBlock)) (l_stdout l)
    else if negb (u32 flag =? 0x00140014)
    then Done (Returned (l_axml l)
                 (Some (ErrExpectedFlag (u32 flag) (u32 (l_offset l + 4 * 6)))))
              (l_stdout l)
    else
      match Strings (l_axml l) !! Z.to_nat (u32 nameIdx) with
      | Some name =>
          Next {| l_reader := {| bytes.s := bytes.s (l_reader l);
                                 bytes.i := u32 (l_offset l + u32 sz) |};
                  l_axml := l_axml l;
                  l_blocktype := CHUNK_XML_START_TAG;
                  l_size := u32 sz;
                  l_offset := u32 (l_offset l + u32 sz);
                  l_stdout := l_stdout l ++ [TagLine (u32 lineNumber) name] |}
      | None =>
          Done (IndexPanic (u32 nameIdx) (length (Strings (l_axml l)))) (l_stdout l)
      end.
Proof.
  intros Hi Hrem. unfold ReadAXML_body.
  read_word Hi Hrem. read_word Hi Hrem.
  change (u32 CHUNK_XML_START_TAG) with CHUNK_XML_START_TAG.
  change (CHUNK_XML_START_TAG =? CHUNK_RESOURCEIDS) with false.
  change (CHUNK_XML_START_TAG =? CHUNK_STRINGS) with false.
  change (CHUNK_XML_START_TAG =? CHUNK_XML_END_NAMESPACE) with false.
  change (CHUNK_XML_START_TAG =? CHUNK_XML_END_TAG) with false.
  change (CHUNK_XML_START_TAG =? CHUNK_XML_START_NAMESPACE) with false.
  change (CHUNK_XML_START_TAG =? CHUNK_XML_START_TAG) with true.
  cbv beta iota zeta. unfold read_start_tag.
  read_word Hi Hrem. read_word Hi Hrem.
  destruct (negb (u32 skip =? SKIP_BLOCK)); [reflexivity|].
  read_word Hi Hrem. read_word Hi Hrem. read_word Hi Hrem.
  destruct (negb (u32 flag =? 0x00140014)); [reflexivity|].
  unfold read_unsized, binary_Read_unsized. cbv beta iota zeta.
  destruct (Strings (l_axml l) !! Z.to_nat (u32 nameIdx)) as [name|]; [|reflexivity].
  rewrite advance_Next, bytes_Seek_start by (apply Z.mod_pos_bound; lia).
  reflexivity.
Qed.

(** At the start of every iteration the reader stands at the chunk's
    offset. *)
Lemma entry_position (data : list byte) (total : Z) :
  bytes.i (l_reader (entry data total)) = l_offset (entry data total).
Proof. reflexivity. Qed.

Lemma ReadAXML_body_position (l l' : Loop bytes.Reader) :
  ReadAXML_body l = Next l' ->
  bytes.i (l_reader l') = l_offset l' /\ 0 <= l_offset l'.
Proof.
  intros Hbody.
  destruct (ReadAXML_body_Next l l' Hbody) as (_ & Hoff & r & Hr).
  assert (Hpos : 0 <= l_offset l')
    by (rewrite Hoff; apply Z.mod_pos_bound; lia).
  split; [|exact Hpos].
  rewrite Hr, bytes_Seek_start by exact Hpos. reflexivity.
Qed.

(** C2, as stated, fails: on a name index that is out of range the call
    does not return an error; the unchecked index expression stops it
    with a runtime panic. *)
Lemma C2_out_of_range_index_panics :
  ReadAXML 1 (bytes.NewReader panic_doc) = Some (IndexPanic 3 0, []).
Proof. vm_compute. reflexivity. Qed.

(** C2 (amended): the decoder does not validate the name index of a start
    tag and has no error for it. With the index in range the name is
    looked up in the string table, printed, and the loop goes on; with
    the index out of range the index expression panics ("index out of
    range"), which ends the call without an error value and without a
    read outside the table. *)
Theorem C2_name_index_is_not_validated (l : Loop bytes.Reader)
    (sz lineNumber nsIdx nameIdx : Z) (rest : list byte) (fuel : nat) :
  0 <= bytes.i (l_reader l) ->
  bytes.remaining (l_reader l)
  = words [CHUNK_XML_START_TAG; sz; lineNumber; SKIP_BLOCK; nsIdx; nameIdx;
           0x00140014] ++ rest ->
  is_u32 nameIdx ->
  l_offset l < size (l_axml l) ->
  (forall name : string,
     Strings (l_axml l) !! Z.to_nat nameIdx = Some name ->
     exists l',
       ReadAXML_body l = Next l'
       /\ l_axml l' = l_axml l
       /\ l_stdout l' = l_stdout l ++ [TagLine (u32 lineNumber) name])
  /\ (Z.of_nat (length (Strings (l_axml l))) <= nameIdx ->
      ReadAXML_loop (S fuel) l
      = Some (IndexPanic nameIdx (length (Strings (l_axml l))), l_stdout l)).
Proof.
  intros Hi Hrem Hname Hlt.
  pose proof (ReadAXML_body_start_tag l _ _ _ _ _ _ _ Hi Hrem) as Hbody.
  change (negb (u32 SKIP_BLOCK =? SKIP_BLOCK)) with false in Hbody.
  change (negb (u32 0x00140014 =? 0x00140014)) with false in Hbody.
  cbv iota in Hbody. rewrite (u32_small _ Hname) in Hbody.
  split.
  - intros name Hlook. rewrite Hlook in Hbody.
    eexists. split; [exact Hbody|]. split; reflexivity.
  - intros Hout. apply ReadAXML_loop_Done; [exact Hlt|].
    rewrite Hbody.
    destruct (Strings (l_axml l) !! Z.to_nat nameIdx) eqn:Hlook; [|reflexivity].
    apply lookup_lt_Some in Hlook. lia.
Qed.

Lemma C2_name_index_is_not_validated_witness :
  (forall name : string,
     Strings (l_axml (entry panic_doc 36)) !! Z.to_nat 3 = Some name ->
     exists l',
       ReadAXML_body (entry panic_doc 36) = Next l'
       /\ l_axml l' = l_axml (entry panic_doc 36)
       /\ l_stdout l' = [] ++ [TagLine (u32 7) name])
  /\ (Z.of_nat 0 <= 3 ->
      ReadAXML_loop 1 (entry panic_doc 36) = Some (IndexPanic 3 0, [])).
Proof.
  apply (C2_name_index_is_not_validated (entry panic_doc 36) 28 7 0 3 [] 0).
  - simpl. lia.
  - reflexivity.
  - u32_solve.
  - reflexivity.
Defined.

(** C5, as stated, fails: a start tag whose flag word is 0x00140013 and
    whose sentinel word is not 0xFFFFFFFF fails on the sentinel, which is
    checked first, and not with the flag error. *)
Lemma C5_sentinel_is_checked_first :
  ReadAXML 1 (bytes.NewReader bad_sentinel_doc)
  = Some (Returned (l_axml (entry bad_sentinel_doc 36)) (Some ErrExpectedBlock), []).
Proof. vm_compute. reflexivity. Qed.

(** C5 (amended): for every start tag whose sentinel word is 0xFFFFFFFF
    and whose flag word differs from 0x00140014, the decoder fails with
    the flag error, which carries the flag found and the chunk's offset
    plus 24 in [uint32] arithmetic; when that sum is below [2^32] it is
    the byte offset of the flag field in the input. *)
Theorem C5_bad_flag_fails_with_offset (l : Loop bytes.Reader)
    (sz lineNumber nsIdx nameIdx flag : Z) (rest : list byte) (fuel : nat) :
  bytes.i (l_reader l) = l_offset l ->
  0 <= l_offset l < size (l_axml l) ->
  bytes.remaining (l_reader l)
  = words [CHUNK_XML_START_TAG; sz; lineNumber; SKIP_BLOCK; nsIdx; nameIdx; flag]
    ++ rest ->
  is_u32 flag ->
  flag <> 0x00140014 ->
  ReadAXML_loop (S fuel) l
  = Some (Returned (l_axml l)
            (Some (ErrExpectedFlag flag (u32 (l_offset l + 24)))), l_stdout l)
  /\ (l_offset l + 24 < 2 ^ 32 ->
      u32 (l_offset l + 24) = l_offset l + 24
      /\ take 4 (drop (Z.to_nat (l_offset l + 24)) (bytes.s (l_reader l)))
         = PutUint32 flag).
Proof.
  intros Hpos [Hoff Hlt] Hrem Hflag Hne. split.
  - apply ReadAXML_loop_Done; [exact Hlt|].
    rewrite (ReadAXML_body_start_tag l _ _ _ _ _ _ _ ltac:(lia) Hrem).
    change (negb (u32 SKIP_BLOCK =? SKIP_BLOCK)) with false. cbv iota.
    rewrite (u32_small _ Hflag).
    destruct (Z.eqb_spec flag 0x00140014) as [Heq|_]; [contradiction|].
    reflexivity.
  - intros Hsmall. split.
    + apply u32_small. unfold is_u32. lia.
    + unfold bytes.remaining in Hrem. rewrite Hpos in Hrem.
      replace (Z.to_nat (l_offset l + 24)) with (Z.to_nat (l_offset l) + 4 * 6)%nat
        by lia.
      rewrite <- drop_drop, Hrem.
      now apply words_lookup.
Qed.

Lemma C5_bad_flag_fails_with_offset_witness :
  ReadAXML_loop 1 (entry bad_flag_doc 36)
  = Some (Returned (l_axml (entry bad_flag_doc 36))
            (Some (ErrExpectedFlag 0x00140013 32)), [])
  /\ (8 + 24 < 2 ^ 32 ->
      u32 (8 + 24) = 8 + 24
      /\ take 4 (drop (Z.to_nat (8 + 24)) bad_flag_doc) = PutUint32 0x00140013).
Proof.
  apply (C5_bad_flag_fails_with_offset (entry bad_flag_doc 36) 28 7 0 0
           0x00140013 [] 0).
  - reflexivity.
  - simpl. lia.
  - reflexivity.
  - u32_solve.
  - discriminate.
Defined.

Example bad_flag_doc_fails :
  ReadAXML 1 (bytes.NewReader bad_flag_doc)
  = Some (Returned (l_axml (entry bad_flag_doc 36))
            (Some (ErrExpectedFlag 0x00140013 32)), []).
Proof. vm_compute. reflexivity. Qed.

(** *** The string pool *)

(** The UTF-8 branch appends nothing to [Strings], for any reader. *)
Lemma read_strings_chunk_utf8 {R : Type} `{ReadSeeker R} (axml : AXML) (r : R) :
  Z.land (Flags (stringsmeta (read_strings_chunk axml r).1)) UTF8_FLAG <> 0 ->
  Strings (read_strings_chunk axml r).1 = Strings axml.
Proof.
  unfold read_strings_chunk, bind, ret.
  destruct (read_uint32 (Nstrings (stringsmeta axml)) r) as [nstrings r1].
  destruct (read_uint32 (StyleOffsetCount (stringsmeta axml)) r1) as [soc r2].
  destruct (read_uint32 (Flags (stringsmeta axml)) r2) as [flags r3].
  destruct (read_uint32 (StringDataOffset (stringsmeta axml)) r3) as [sdo r4].
  destruct (read_uint32 (Stylesoffset (stringsmeta axml)) r4) as [so r5].
  destruct (read_DataOffset (Z.to_nat nstrings) (DataOffset (stringsmeta axml)) r5)
    as [dataOffset r6].
  destruct (Z.eqb_spec (Z.land flags UTF8_FLAG) 0) as [Heq|Hne]; simpl.
  - destruct (read_utf16_strings (Z.to_nat nstrings) 0 nstrings (Strings axml) r6).
    simpl. intros Hflags. contradiction.
  - reflexivity.
Qed.

(** C8 fails on the code: with [UTF8_FLAG] set and [Nstrings = 2] the
    decoder decodes no string at all. Its one [binary.Read] into a
    [string] is refused by [encoding/binary], and nothing is appended to
    [Strings]. *)
Theorem C8_utf8_pool_decodes_no_string :
  ReadAXML 1 (bytes.NewReader utf8_pool_doc)
  = Some (Returned
            {| Header := CHUNK_AXML_FILE; size := 56;
               stringsmeta := {| Nstrings := 2; StyleOffsetCount := 0;
                                 Flags := UTF8_FLAG; StringDataOffset := 36;
                                 Stylesoffset := 0; DataOffset := [0; 5] |};
               Strings := [] |} None, []).
Proof. vm_compute. reflexivity. Qed.

(** The sibling branch decodes one string per pool entry. *)
Example utf16_pool_decodes_each_string :
  ReadAXML 1 (bytes.NewReader utf16_pool_doc)
  = Some (Returned
            {| Header := CHUNK_AXML_FILE; size := 60;
               stringsmeta := {| Nstrings := 2; StyleOffsetCount := 0;
                                 Flags := 0; StringDataOffset := 36;
                                 Stylesoffset := 0; DataOffset := [0; 8] |};
               Strings := ["hi"%string; "A"%string] |} None, []).
Proof. vm_compute. reflexivity. Qed.

(** *** Unknown chunk types *)

Lemma C6_unknown_chunk_type_fails_witness :
  ReadAXML_loop 1 (entry (PutUint32 CHUNK_AXML_FILE ++ PutUint32 16
                          ++ words [0x00100105; 8]) 16)
  = Some (Returned
            {| Header := CHUNK_AXML_FILE; size := 16;
               stringsmeta := stringsmeta AXML_zero; Strings := [] |}
            (Some (ErrUnknownChunkType 0x00100105)), []).
Proof.
  refine (eq_trans
            (C6_unknown_chunk_type_fails
               (entry (PutUint32 CHUNK_AXML_FILE ++ PutUint32 16
                       ++ words [0x00100105; 8]) 16) 0 _ _) _).
  - reflexivity.
  - vm_compute. reflexivity.
  - vm_compute. reflexivity.
Defined.

(** An unknown chunk after a known one ends the whole call. *)
Example unknown_chunk_doc_fails :
  ReadAXML 2 (bytes.NewReader unknown_chunk_doc)
  = Some (Returned
            {| Header := CHUNK_AXML_FILE; size := 24;
               stringsmeta := stringsmeta AXML_zero; Strings := [] |}
            (Some (ErrUnknownChunkType 0x00100105)),
          [ChunkLine "CHUNK_XML_TEXT" 8 8]).
Proof. vm_compute. reflexivity. Qed.

(** *** Termination *)

Lemma zero_size_doc_stays (fuel : nat) :
  forall (blocktype sz : Z) (stdout : list printed),
  ReadAXML_loop fuel
    {| l_reader := {| bytes.s := zero_size_doc; bytes.i := 8 |};
       l_axml := l_axml (entry zero_size_doc 16);
       l_blocktype := blocktype; l_size := sz; l_offset := 8;
       l_stdout := stdout |} = None.
Proof.
  induction fuel as [|fuel IH]; intros blocktype sz stdout; [reflexivity|].
  rewrite (ReadAXML_loop_Next fuel _
             {| l_reader := {| bytes.s := zero_size_doc; bytes.i := 8 |};
                l_axml := l_axml (entry zero_size_doc 16);
                l_blocktype := CHUNK_RESOURCEIDS; l_size := 0; l_offset := 8;
                l_stdout := stdout ++ [ChunkLine "CHUNK_RESOURCEIDS" 8 0] |}).
  - apply IH.
  - reflexivity.
  - vm_compute. reflexivity.
Qed.

(** C7, as stated, fails: on a document whose chunk declares the size 0
    the offset never moves, and the call does not return within any
    number of iterations. *)
Lemma C7_zero_size_chunk_never_ends :
  ~ exists (fuel : nat) (res : result * list printed),
      ReadAXML fuel (bytes.NewReader zero_size_doc) = Some res.
Proof.
  intros (fuel & res & Hres).
  unfold ReadAXML in Hres.
  change (ReadAXML_enter (bytes.NewReader zero_size_doc))
    with (Next (entry zero_size_doc 16)) in Hres.
  unfold entry in Hres. rewrite zero_size_doc_stays in Hres. discriminate Hres.
Qed.

Lemma C7_loop_ends_when_advancing_witness :
  exists res,
    runs (entry two_chunk_doc 28) res
    /\ ReadAXML_loop 20 (entry two_chunk_doc 28) = Some res.
Proof.
  apply (C7_loop_ends_when_advancing (entry two_chunk_doc 28) 20).
  - vm_compute. discriminate.
  - vm_compute. reflexivity.
Defined.

Example two_chunk_doc_is_read :
  ReadAXML 2 (bytes.NewReader two_chunk_doc)
  = Some (Returned (l_axml (entry two_chunk_doc 28)) None,
          [ChunkLine "CHUNK_RESOURCEIDS" 8 12; ChunkLine "CHUNK_XML_TEXT" 20 8]).
Proof. vm_compute. reflexivity. Qed.

(** The same without a bound: no run of the loop ends. *)
Lemma zero_size_doc_has_no_run :
  ~ exists res, runs (entry zero_size_doc 16) res.
Proof.
  intros [res Hruns]. apply runs_ReadAXML_loop in Hruns as [fuel Hloop].
  unfold entry in Hloop. rewrite zero_size_doc_stays in Hloop. discriminate Hloop.
Qed.

(** An input cut after the header: the reads of the chunk header fail,
    the type word stays 0, and the call fails on it. *)
Example cut_after_header_fails :
  ReadAXML 1 (bytes.NewReader (PutUint32 CHUNK_AXML_FILE ++ PutUint32 100))
  = Some (Returned
            {| Header := CHUNK_AXML_FILE; size := 100;
               stringsmeta := stringsmeta AXML_zero; Strings := [] |}
            (Some (ErrUnknownChunkType 0)), []).
Proof. vm_compute. reflexivity. Qed.

(** A start tag whose name index is in range: the name is looked up in
    the pool decoded before it. *)
Example start_tag_in_range_is_printed :
  ReadAXML 2
    (bytes.NewReader
       (PutUint32 CHUNK_AXML_FILE ++ PutUint32 88
        ++ words [CHUNK_STRINGS; 52; 2; 0; 0; 36; 0; 0; 8]
        ++ concat (map PutUint16 [2; 0x68; 0x69; 0; 1; 0x41; 0; 0])
        ++ words [CHUNK_XML_START_TAG; 28; 7; SKIP_BLOCK; 0; 1; 0x00140014]))
  = Some (Returned
            {| Header := CHUNK_AXML_FILE; size := 88;
               stringsmeta := {| Nstrings := 2; StyleOffsetCount := 0;
                                 Flags := 0; StringDataOffset := 36;
                                 Stylesoffset := 0; DataOffset := [0; 8] |};
               Strings := ["hi"%string; "A"%string] |} None,
          [TagLine 7 "A"]).
Proof. vm_compute. reflexivity. Qed.

(** * Further properties of the code *)

(** ** Words and their bytes, the other way round *)

Lemma byte_of_Z_of_byte (b : byte) : byte_of_Z (Z_of_byte b) = b.
Proof.
  unfold byte_of_Z. pose proof (Z_of_byte_range b) as Hr.
  rewrite Z.mod_small by lia. unfold Z_of_byte.
  now rewrite N2Z.id, Byte.of_to_N.
Qed.

Lemma byte_of_Z_low (z : Z) (b : byte) : z mod 256 = Z_of_byte b -> byte_of_Z z = b.
Proof.
  intros Hz. rewrite <- (byte_of_Z_of_byte b), <- Hz.
  unfold byte_of_Z. now rewrite Z.mod_mod by lia.
Qed.

Lemma Z_of_byte_testbit_high (b : byte) (n : Z) :
  8 <= n -> Z.testbit (Z_of_byte b) n = false.
Proof.
  intros Hn. pose proof (Z_of_byte_range b) as Hr.
  rewrite <- (Z.mod_small (Z_of_byte b) 256) by lia.
  rewrite testbit_low_byte.
  now replace (n <? 8) with false by (symmetry; apply Z.ltb_ge; lia).
Qed.

(** The bit of a byte at an index that is out of its eight bits, or that
    is the bit [n] written differently. *)
Ltac byte_bit n :=
  repeat match goal with
  | |- context [Z.testbit (Z_of_byte ?b) ?m] =>
      lazymatch m with
      | n => fail
      | _ =>
          first [ rewrite (Z.testbit_neg_r (Z_of_byte b) m) by lia
                | rewrite (Z_of_byte_testbit_high b m) by lia
                | replace m with n by lia ]
      end
  end.

Lemma Uint32_byte (b0 b1 b2 b3 : byte) (k : Z) (b : byte) :
  (k = 0 /\ b = b0) \/ (k = 8 /\ b = b1) \/ (k = 16 /\ b = b2) \/ (k = 24 /\ b = b3) ->
  Z.shiftr (Uint32 [b0; b1; b2; b3]) k mod 256 = Z_of_byte b.
Proof.
  intros Hk. apply Z.bits_inj'. intros n Hn.
  rewrite testbit_low_byte.
  destruct (Z.ltb_spec n 8) as [Hlow|Hhigh].
  - rewrite Z.shiftr_spec by lia. unfold Uint32.
    rewrite !Z.lor_spec, !Z.shiftl_spec by lia.
    destruct Hk as [[-> ->]|[[-> ->]|[[-> ->]|[-> ->]]]];
      byte_bit n; simpl; rewrite ?orb_false_r; reflexivity.
  - simpl. symmetry. apply Z_of_byte_testbit_high. lia.
Qed.

(** Encoding the word that four bytes decode to gives the four bytes. *)
Lemma PutUint32_Uint32 (b0 b1 b2 b3 : byte) :
  PutUint32 (Uint32 [b0; b1; b2; b3]) = [b0; b1; b2; b3].
Proof.
  unfold PutUint32.
  rewrite <- (Z.shiftr_0_r (Uint32 [b0; b1; b2; b3])) at 1.
  repeat f_equal; apply byte_of_Z_low; apply Uint32_byte; tauto.
Qed.

Lemma Uint32_range (bs : list byte) : is_u32 (Uint32 bs).
Proof.
  destruct bs as [|b0 [|b1 [|b2 [|b3 [|b4 bs]]]]]; try (unfold is_u32; simpl; lia).
  pose proof (Uint32_PutUint32 (Uint32 [b0; b1; b2; b3])) as Hw.
  rewrite PutUint32_Uint32 in Hw. rewrite Hw. apply u32_range.
Qed.

Lemma PutUint32_inj (v w : Z) :
  is_u32 v -> is_u32 w -> PutUint32 v = PutUint32 w -> v = w.
Proof.
  intros Hv Hw Heq. apply (f_equal Uint32) in Heq.
  now rewrite !Uint32_PutUint32, !u32_small in Heq.
Qed.

(** ** Reads of a [bytes.Reader], read backwards *)

Lemma bytes_read_fail (r : bytes.Reader) (old : Z) :
  0 <= bytes.i r ->
  (length (bytes.remaining r) < 4)%nat ->
  binary_Read_uint32 old r
  = ((old, Some (short_read_error (bytes.remaining r))),
     match bytes.remaining r with
     | [] => r
     | _ => {| bytes.s := bytes.s r; bytes.i := Z.of_nat (length (bytes.s r)) |}
     end).
Proof.
  intros Hi Hshort.
  unfold binary_Read_uint32, io_ReadFull. simpl. unfold bytes.ReadFull.
  unfold bytes.remaining in *.
  destruct (Z.leb_spec (Z.of_nat (length (bytes.s r))) (bytes.i r)).
  - rewrite drop_ge by lia. reflexivity.
  - replace (4 <=? length (drop (Z.to_nat (bytes.i r)) (bytes.s r)))%nat
      with false by (symmetry; apply Nat.leb_gt; lia).
    destruct (drop (Z.to_nat (bytes.i r)) (bytes.s r)) eqn:Hdrop; [|reflexivity].
    apply (f_equal length) in Hdrop. rewrite length_drop in Hdrop. simpl in Hdrop. lia.
Qed.

(** A list of bytes is short of a word or starts with one. *)
Lemma word_or_short (l : list byte) :
  (length l < 4)%nat
  \/ exists v rest, l = PutUint32 v ++ rest /\ is_u32 v.
Proof.
  destruct l as [|b0 [|b1 [|b2 [|b3 rest]]]]; try (left; simpl; lia).
  right. exists (Uint32 [b0; b1; b2; b3]), rest.
  split; [now rewrite PutUint32_Uint32|apply Uint32_range].
Qed.

Lemma bytes_read_word_inv (r r' : bytes.Reader) (old v : Z) :
  0 <= bytes.i r ->
  binary_Read_uint32 old r = ((v, None), r') ->
  exists rest,
    bytes.remaining r = PutUint32 v ++ rest /\ r' = next4 r /\ is_u32 v.
Proof.
  intros Hi Hread.
  destruct (word_or_short (bytes.remaining r)) as [Hshort|(w & rest & Hrem & Hw)].
  - rewrite bytes_read_fail in Hread by assumption. discriminate Hread.
  - destruct (bytes_read_word r w old rest Hi Hrem) as [Hread' _].
    rewrite Hread' in Hread. injection Hread as <- <-.
    exists rest. rewrite (u32_small _ Hw). split; [exact Hrem|]. split; [reflexivity|exact Hw].
Qed.

(** ** [UnmarshalBinary]: what it reports and what it leaves behind *)

(** X1: on an input that ends inside the two header words,
    [UnmarshalBinary] returns [io.EOF] when nothing is left for the word
    it reads and [io.ErrUnexpectedEOF] when one to three bytes are; the
    receiver is untouched when the type word is missing, and has only its
    [Type] set when the size word is. *)
Theorem UnmarshalBinary_header_cut_short (recv : ResourceIdsBlock)
    (data : list byte) :
  (length data < 4)%nat ->
  UnmarshalBinary recv data = (recv, Some (short_read_error data))
  /\ UnmarshalBinary recv (PutUint32 CHUNK_RESOURCEIDS ++ data)
     = (set_Type CHUNK_RESOURCEIDS recv, Some (short_read_error data)).
Proof.
  intros Hshort. split.
  - unfold UnmarshalBinary.
    rewrite bytes_read_fail by (simpl; first [lia|exact Hshort]).
    destruct recv as [[ty sz off] ids]. reflexivity.
  - unfold UnmarshalBinary.
    destruct (bytes_read_word (bytes.NewReader (PutUint32 CHUNK_RESOURCEIDS ++ data))
                CHUNK_RESOURCEIDS (Type_ (Block recv)) data)
      as [-> Hrem]; [simpl; lia|reflexivity|].
    change (u32 CHUNK_RESOURCEIDS) with CHUNK_RESOURCEIDS.
    rewrite Z.eqb_refl. simpl negb. cbv iota.
    rewrite bytes_read_fail by (rewrite ?Hrem; simpl; first [lia|exact Hshort]).
    rewrite Hrem. reflexivity.
Qed.

Lemma UnmarshalBinary_header_cut_short_witness :
  UnmarshalBinary stale_block [x80; x01] = (stale_block, Some ErrUnexpectedEOF)
  /\ UnmarshalBinary stale_block (PutUint32 CHUNK_RESOURCEIDS ++ [x80; x01])
     = (set_Type CHUNK_RESOURCEIDS stale_block, Some ErrUnexpectedEOF).
Proof.
  apply (UnmarshalBinary_header_cut_short stale_block [x80; x01]). simpl. lia.
Defined.

(** X2: on an input whose first word is not [CHUNK_RESOURCEIDS],
    [UnmarshalBinary] returns the "Expected type" error with that word,
    whatever follows it, and has overwritten the receiver's [Type] with
    the word; [Size], [Offset] and [Ids] are as before. *)
Theorem UnmarshalBinary_wrong_type (recv : ResourceIdsBlock) (ty : Z)
    (rest : list byte) :
  is_u32 ty ->
  ty <> CHUNK_RESOURCEIDS ->
  UnmarshalBinary recv (PutUint32 ty ++ rest)
  = (set_Type ty recv, Some (ErrExpectedType CHUNK_RESOURCEIDS ty)).
Proof.
  intros Hty Hne. unfold UnmarshalBinary.
  destruct (bytes_read_word (bytes.NewReader (PutUint32 ty ++ rest))
              ty (Type_ (Block recv)) rest)
    as [-> _]; [simpl; lia|reflexivity|].
  rewrite (u32_small _ Hty).
  destruct (Z.eqb_spec ty CHUNK_RESOURCEIDS) as [Heq|_]; [contradiction|].
  reflexivity.
Qed.

Lemma UnmarshalBinary_wrong_type_witness :
  UnmarshalBinary stale_block (PutUint32 CHUNK_STRINGS ++ PutUint32 12 ++ PutUint32 1)
  = (set_Type CHUNK_STRINGS stale_block,
     Some (ErrExpectedType CHUNK_RESOURCEIDS CHUNK_STRINGS)).
Proof.
  apply (UnmarshalBinary_wrong_type stale_block CHUNK_STRINGS
           (PutUint32 12 ++ PutUint32 1)).
  - u32_solve.
  - discriminate.
Defined.

(** The loop of [UnmarshalBinary] on a reader that runs out before the
    last id. *)
Lemma UnmarshalBinary_loop_cut_short (vs : list Z) :
  forall (done : list Z) (r : bytes.Reader) (tail : list byte) (m : nat),
  0 <= bytes.i r ->
  bytes.remaining r = words vs ++ tail ->
  (length tail < 4)%nat ->
  UnmarshalBinary_loop (length vs + S m) (Z.of_nat (length done))
                       (done ++ replicate (length vs + S m) 0) r
  = (done ++ map u32 vs ++ replicate (S m) 0, Some (short_read_error tail)).
Proof.
  induction vs as [|v vs IH]; intros done r tail m Hi Hrem Htail.
  - cbn [length Nat.add words concat map app] in *.
    cbn [UnmarshalBinary_loop].
    rewrite bytes_read_fail by (rewrite ?Hrem; assumption).
    rewrite Hrem. reflexivity.
  - rewrite words_cons, <- app_assoc in Hrem.
    cbn [length Nat.add UnmarshalBinary_loop replicate].
    destruct (bytes_read_word r v
                ((done ++ 0 :: replicate (length vs + S m) 0)
                   !!! Z.to_nat (Z.of_nat (length done)))
                _ Hi Hrem) as [-> Hrem'].
    rewrite Nat2Z.id, insert_app_r_alt, Nat.sub_diag by lia.
    cbn [list_insert insert].
    replace (Z.of_nat (length done) + 1) with (Z.of_nat (length (done ++ [u32 v])))
      by (rewrite length_app; simpl; lia).
    replace (done ++ u32 v :: replicate (length vs + S m) 0)
      with ((done ++ [u32 v]) ++ replicate (length vs + S m) 0)
      by (now rewrite <- app_assoc).
    rewrite (IH (done ++ [u32 v]) _ tail m); [|simpl; lia|exact Hrem'|exact Htail].
    now rewrite <- app_assoc.
Qed.

(** X3: on an input that has the two header words but runs out before
    the last of the [Size/4 - 2] ids, [UnmarshalBinary] returns [io.EOF]
    (nothing left for the next id) or [io.ErrUnexpectedEOF] (one to three
    bytes left), and leaves in the receiver the header words, the ids it
    has read, and zeros for the others. *)
Theorem UnmarshalBinary_ids_cut_short (recv : ResourceIdsBlock) (sz : Z)
    (vs : list Z) (tail : list byte) :
  is_u32 sz ->
  Forall is_u32 vs ->
  (length tail < 4)%nat ->
  Z.of_nat (length vs) < id_count sz ->
  UnmarshalBinary recv
    (PutUint32 CHUNK_RESOURCEIDS ++ PutUint32 sz ++ words vs ++ tail)
  = ({| Block := {| Type_ := CHUNK_RESOURCEIDS; Size := sz;
                    Offset := Offset (Block recv) |};
        Ids := vs ++ replicate (Z.to_nat (id_count sz) - length vs) 0 |},
     Some (short_read_error tail)).
Proof.
  intros Hsz Hvs Htail Hcount. unfold UnmarshalBinary.
  destruct (bytes_read_word (bytes.NewReader
              (PutUint32 CHUNK_RESOURCEIDS ++ PutUint32 sz ++ words vs ++ tail))
              CHUNK_RESOURCEIDS (Type_ (Block recv)) (PutUint32 sz ++ words vs ++ tail))
    as [-> Hrem]; [simpl; lia|reflexivity|].
  change (u32 CHUNK_RESOURCEIDS) with CHUNK_RESOURCEIDS.
  rewrite Z.eqb_refl. simpl negb. cbv iota.
  match goal with
  | |- context [binary_Read_uint32 ?old ?r] =>
      destruct (bytes_read_word r sz old (words vs ++ tail)) as [-> Hrem2];
        [simpl; lia|exact Hrem|]
  end.
  rewrite (u32_small _ Hsz).
  destruct (Z.to_nat (id_count sz) - length vs)%nat as [|m] eqn:Hm; [lia|].
  replace (Z.to_nat (id_count sz)) with (length vs + S m)%nat by lia.
  rewrite (UnmarshalBinary_loop_cut_short vs [] _ tail m);
    [|simpl; lia|exact Hrem2|exact Htail].
  rewrite (Forall_u32_map _ Hvs). reflexivity.
Qed.

Lemma UnmarshalBinary_ids_cut_short_witness :
  UnmarshalBinary ResourceIdsBlock_zero
    (PutUint32 CHUNK_RESOURCEIDS ++ PutUint32 20 ++ words [5] ++ [x01; x02])
  = ({| Block := {| Type_ := CHUNK_RESOURCEIDS; Size := 20; Offset := 0 |};
        Ids := [5] ++ replicate 2 0 |}, Some ErrUnexpectedEOF).
Proof.
  apply (UnmarshalBinary_ids_cut_short ResourceIdsBlock_zero 20 [5] [x01; x02]).
  - u32_solve.
  - constructor; [u32_solve|constructor].
  - simpl. lia.
  - vm_compute. reflexivity.
Defined.

(** The loop of [UnmarshalBinary], when it ends without an error, has
    read one word for each id. *)
Lemma UnmarshalBinary_loop_inv (n : nat) :
  forall (done : list Z) (r : bytes.Reader) (ids : list Z),
  0 <= bytes.i r ->
  UnmarshalBinary_loop n (Z.of_nat (length done)) (done ++ replicate n 0) r
  = (ids, None) ->
  exists vs rest,
    bytes.remaining r = words vs ++ rest
    /\ length vs = n /\ Forall is_u32 vs /\ ids = done ++ vs.
Proof.
  induction n as [|n IH]; intros done r ids Hi Hloop.
  - exists [], (bytes.remaining r). cbn in Hloop. injection Hloop as <-.
    rewrite app_nil_r. repeat split. constructor.
  - cbn [UnmarshalBinary_loop replicate] in Hloop.
    destruct (binary_Read_uint32
                ((done ++ 0 :: replicate n 0) !!! Z.to_nat (Z.of_nat (length done))) r)
      as [[v [e|]] r'] eqn:Hread; [discriminate Hloop|].
    apply bytes_read_word_inv in Hread as (rest & Hrem & -> & Hv); [|exact Hi].
    rewrite Nat2Z.id, insert_app_r_alt, Nat.sub_diag in Hloop by lia.
    cbn [list_insert insert] in Hloop.
    replace (Z.of_nat (length done) + 1) with (Z.of_nat (length (done ++ [v])))
      in Hloop by (rewrite length_app; simpl; lia).
    replace (done ++ v :: replicate n 0) with ((done ++ [v]) ++ replicate n 0)
      in Hloop by (now rewrite <- app_assoc).
    apply IH in Hloop as (vs & rest' & Hrem' & Hlen & Hvs & ->); [|simpl; lia].
    exists (v :: vs), rest'. split; [|split; [|split]].
    + rewrite Hrem, words_cons, <- app_assoc. f_equal.
      destruct (bytes_read_word r v 0 rest Hi Hrem) as [_ Hnext].
      unfold next4 in Hrem'. now rewrite Hnext in Hrem'.
    + simpl. now rewrite Hlen.
    + now constructor.
    + now rewrite <- app_assoc.
Qed.

(** What a successful [UnmarshalBinary] has found in its input. *)
Lemma UnmarshalBinary_inv (recv b : ResourceIdsBlock) (data : list byte) :
  UnmarshalBinary recv data = (b, None) ->
  exists rest,
    data = PutUint32 CHUNK_RESOURCEIDS ++ PutUint32 (Size (Block b))
           ++ words (Ids b) ++ rest
    /\ Type_ (Block b) = CHUNK_RESOURCEIDS
    /\ is_u32 (Size (Block b))
    /\ Forall is_u32 (Ids b)
    /\ Z.of_nat (length (Ids b)) = id_count (Size (Block b))
    /\ Offset (Block b) = Offset (Block recv).
Proof.
  unfold UnmarshalBinary.
  destruct (binary_Read_uint32 (Type_ (Block recv)) (bytes.NewReader data))
    as [[ty [e|]] r1] eqn:Hty; [discriminate|].
  apply bytes_read_word_inv in Hty as (rest1 & Hrem1 & -> & Hu1); [|simpl; lia].
  destruct (Z.eqb_spec ty CHUNK_RESOURCEIDS) as [->|Hne]; [|discriminate].
  simpl negb. cbv iota.
  destruct (binary_Read_uint32 (Size (Block (set_Type CHUNK_RESOURCEIDS recv)))
              (next4 (bytes.NewReader data)))
    as [[sz [e|]] r2] eqn:Hsz; [discriminate|].
  apply bytes_read_word_inv in Hsz as (rest2 & Hrem2 & -> & Hu2); [|simpl; lia].
  destruct (UnmarshalBinary_loop (Z.to_nat (id_count sz)) 0
              (replicate (Z.to_nat (id_count sz)) 0)
              (next4 (next4 (bytes.NewReader data)))) as [ids err] eqn:Hloop.
  intros Heq. injection Heq as <- ->.
  apply (UnmarshalBinary_loop_inv _ []) in Hloop
    as (vs & rest & Hrem3 & Hlen & Hvs & ->); [|simpl; lia].
  exists rest. unfold set_Ids, set_Size, set_Type. cbn [Block Type_ Size Offset Ids].
  split; [|split; [reflexivity|split; [exact Hu2|split; [exact Hvs|split]]]].
  - destruct (bytes_read_word (bytes.NewReader data) _ 0 _
                ltac:(simpl; lia) Hrem1) as [_ Hn1].
    fold (next4 (bytes.NewReader data)) in Hn1.
    destruct (bytes_read_word (next4 (bytes.NewReader data)) _ 0 _
                ltac:(simpl; lia) Hrem2) as [_ Hn2].
    fold (next4 (next4 (bytes.NewReader data))) in Hn2.
    rewrite Hn2 in Hrem3. rewrite Hn1 in Hrem2.
    change (bytes.remaining (bytes.NewReader data)) with data in Hrem1.
    now rewrite Hrem1, Hrem2, Hrem3.
  - rewrite app_nil_l, Hlen. apply Z2Nat.id. unfold id_count, u32.
    apply Z.mod_pos_bound. lia.
  - reflexivity.
Qed.

(** X4: when [UnmarshalBinary] returns without an error, the block it
    has decoded has the type [CHUNK_RESOURCEIDS] and [Size/4 - 2] ids
    ([uint32] arithmetic), the input is at least [8 + 4*len(Ids)] bytes
    long, and [MarshalBinary] of the block gives exactly these first
    bytes of the input back; what follows them was ignored. *)
Theorem MarshalBinary_after_UnmarshalBinary (recv b : ResourceIdsBlock)
    (data : list byte) :
  UnmarshalBinary recv data = (b, None) ->
  MarshalBinary b = (take (8 + 4 * length (Ids b)) data, None)
  /\ (8 + 4 * length (Ids b) <= length data)%nat
  /\ Type_ (Block b) = CHUNK_RESOURCEIDS
  /\ Z.of_nat (length (Ids b)) = id_count (Size (Block b))
  /\ Offset (Block b) = Offset (Block recv).
Proof.
  intros Hdec.
  destruct (UnmarshalBinary_inv recv b data Hdec)
    as (rest & Hdata & Hty & Hsz & Hids & Hcount & Hoff).
  split; [|split; [|repeat split; assumption]].
  - rewrite MarshalBinary_spec, Hty. f_equal.
    rewrite Hdata at 1. rewrite !app_assoc. symmetry.
    apply take_app_length'.
    rewrite !length_app, !PutUint32_length, words_length. lia.
  - rewrite Hdata, !length_app, !PutUint32_length, words_length. lia.
Qed.

Lemma MarshalBinary_after_UnmarshalBinary_witness :
  MarshalBinary
    {| Block := {| Type_ := CHUNK_RESOURCEIDS; Size := 13; Offset := 0 |};
       Ids := [99] |}
  = (take (8 + 4 * 1)
       (PutUint32 CHUNK_RESOURCEIDS ++ PutUint32 13 ++ PutUint32 99 ++ [x07]), None)
  /\ (8 + 4 * 1
      <= length (PutUint32 CHUNK_RESOURCEIDS ++ PutUint32 13 ++ PutUint32 99 ++ [x07]))%nat
  /\ CHUNK_RESOURCEIDS = CHUNK_RESOURCEIDS
  /\ Z.of_nat 1 = id_count 13
  /\ 0 = 0.
Proof.
  apply (MarshalBinary_after_UnmarshalBinary ResourceIdsBlock_zero
           {| Block := {| Type_ := CHUNK_RESOURCEIDS; Size := 13; Offset := 0 |};
              Ids := [99] |}
           (PutUint32 CHUNK_RESOURCEIDS ++ PutUint32 13 ++ PutUint32 99 ++ [x07])).
  vm_compute. reflexivity.
Defined.

Lemma words_inj (vs : list Z) :
  forall ws : list Z,
  Forall is_u32 vs -> Forall is_u32 ws -> words vs = words ws -> vs = ws.
Proof.
  induction vs as [|v vs IH]; intros [|w ws] Hvs Hws Heq;
    try reflexivity; try discriminate Heq.
  rewrite !words_cons in Heq.
  apply app_inj_1 in Heq as [Hhead Htail]; [|reflexivity].
  apply Forall_cons in Hvs as [Hv Hvs]. apply Forall_cons in Hws as [Hw Hws].
  f_equal; [now apply PutUint32_inj|now apply IH].
Qed.

(** X5: [MarshalBinary] is injective on what it encodes: two blocks of
    [uint32] values with the same encoding have the same [Type], the
    same [Size] and the same [Ids] (their [Offset]s, which are not
    encoded, may differ). *)
Theorem MarshalBinary_injective (b1 b2 : ResourceIdsBlock) :
  is_u32 (Type_ (Block b1)) -> is_u32 (Size (Block b1)) -> Forall is_u32 (Ids b1) ->
  is_u32 (Type_ (Block b2)) -> is_u32 (Size (Block b2)) -> Forall is_u32 (Ids b2) ->
  MarshalBinary b1 = MarshalBinary b2 ->
  Type_ (Block b1) = Type_ (Block b2)
  /\ Size (Block b1) = Size (Block b2)
  /\ Ids b1 = Ids b2.
Proof.
  intros Ht1 Hs1 Hi1 Ht2 Hs2 Hi2 Heq.
  rewrite !MarshalBinary_spec in Heq.
  apply (f_equal fst) in Heq. cbn [fst] in Heq.
  apply app_inj_1 in Heq as [Hty Heq]; [|reflexivity].
  apply app_inj_1 in Heq as [Hsz Hids]; [|reflexivity].
  split; [now apply PutUint32_inj|]. split; [now apply PutUint32_inj|].
  now apply words_inj.
Qed.

Lemma MarshalBinary_injective_witness :
  CHUNK_RESOURCEIDS = CHUNK_RESOURCEIDS /\ 8 = 8 /\ [7] = [7].
Proof.
  apply (MarshalBinary_injective stale_block (set_Offset 40 stale_block)).
  - u32_solve.
  - u32_solve.
  - constructor; [u32_solve|constructor].
  - u32_solve.
  - u32_solve.
  - constructor; [u32_solve|constructor].
  - vm_compute. reflexivity.
Defined.

(** [ReadResourceIdsBlock] on a [bytes.Reader] that has all the words at
    the offset. *)
Lemma ReadResourceIdsBlock_full (pre rest : list byte) (vs : list Z) (size : Z) :
  Z.of_nat (length vs) = id_count size ->
  (ReadResourceIdsBlock (bytes.NewReader (pre ++ words vs ++ rest)) size
                        (Z.of_nat (length pre))).1
  = ({| Block := {| Type_ := CHUNK_RESOURCEIDS; Size := size;
                    Offset := Z.of_nat (length pre) |};
        Ids := map u32 vs |}, None).
Proof.
  intros Hcount.
  rewrite ReadResourceIdsBlock_spec. cbn [fst].
  rewrite bytes_Seek_start by lia. cbn [snd bytes.NewReader bytes.s].
  rewrite <- Hcount, Nat2Z.id.
  rewrite (bytes_read_results_words vs _ rest);
    [|simpl; lia|apply bytes_remaining_after].
  cbn [fst]. rewrite map_map. do 2 f_equal. exact (List.map_id (map u32 vs)).
Qed.

(** X6: the two decoders agree: when [UnmarshalBinary] decodes an input
    without an error, [ReadResourceIdsBlock] on the same input, told the
    chunk's size word and the offset 8 of the ids, returns the same
    block, with that offset. *)
Theorem ReadResourceIdsBlock_agrees_with_UnmarshalBinary
    (recv b : ResourceIdsBlock) (data : list byte) :
  UnmarshalBinary recv data = (b, None) ->
  (ReadResourceIdsBlock (bytes.NewReader data) (Size (Block b)) 8).1
  = (set_Offset 8 b, None).
Proof.
  intros Hdec.
  destruct (UnmarshalBinary_inv recv b data Hdec)
    as (rest & Hdata & Hty & Hsz & Hids & Hcount & Hoff).
  rewrite Hdata at 1. rewrite app_assoc.
  rewrite (ReadResourceIdsBlock_full (PutUint32 _ ++ PutUint32 _) rest (Ids b))
    by exact Hcount.
  rewrite (Forall_u32_map _ Hids). unfold set_Offset. rewrite Hty. reflexivity.
Qed.

Lemma ReadResourceIdsBlock_agrees_with_UnmarshalBinary_witness :
  (ReadResourceIdsBlock
     (bytes.NewReader (PutUint32 CHUNK_RESOURCEIDS ++ PutUint32 13 ++ PutUint32 99))
     13 8).1
  = ({| Block := {| Type_ := CHUNK_RESOURCEIDS; Size := 13; Offset := 8 |};
        Ids := [99] |}, None).
Proof.
  apply (ReadResourceIdsBlock_agrees_with_UnmarshalBinary ResourceIdsBlock_zero
           {| Block := {| Type_ := CHUNK_RESOURCEIDS; Size := 13; Offset := 0 |};
              Ids := [99] |}
           (PutUint32 CHUNK_RESOURCEIDS ++ PutUint32 13 ++ PutUint32 99)).
  vm_compute. reflexivity.
Defined.

(** X7: [ReadResourceIdsBlock] does not need the header words: at an
    offset with fewer than four bytes behind it, at the end of the input
    or anywhere past it, no id can be read, and the call returns
    [Size/4 - 2] zeros and a nil error. *)
Theorem ReadResourceIdsBlock_past_the_end (data : list byte) (size offset : Z) :
  0 <= offset ->
  Z.of_nat (length data) < offset + 4 ->
  (ReadResourceIdsBlock (bytes.NewReader data) size offset).1
  = ({| Block := {| Type_ := CHUNK_RESOURCEIDS; Size := size; Offset := offset |};
        Ids := replicate (Z.to_nat (id_count size)) 0 |}, None).
Proof.
  intros Hoff Hend.
  rewrite ReadResourceIdsBlock_spec. cbn [fst].
  rewrite bytes_Seek_start by lia. cbn [snd bytes.NewReader bytes.s].
  rewrite bytes_read_results_short.
  - do 2 f_equal. generalize (Z.to_nat (id_count size)) as n.
    induction n as [|n IH]; [reflexivity|]. simpl. now rewrite IH.
  - simpl. lia.
  - unfold bytes.remaining. simpl. rewrite length_drop. lia.
Qed.

Lemma ReadResourceIdsBlock_past_the_end_witness :
  (ReadResourceIdsBlock (bytes.NewReader (PutUint32 CHUNK_RESOURCEIDS ++ PutUint32 16))
                        16 1000).1
  = ({| Block := {| Type_ := CHUNK_RESOURCEIDS; Size := 16; Offset := 1000 |};
        Ids := replicate (Z.to_nat (id_count 16)) 0 |}, None).
Proof.
  apply (ReadResourceIdsBlock_past_the_end
           (PutUint32 CHUNK_RESOURCEIDS ++ PutUint32 16) 16 1000).
  - lia.
  - simpl. lia.
Defined.

(** X8: a negative offset makes the seek of a [bytes.Reader] fail; the
    failure is dropped and the ids are read from where the reader
    stands, for a new reader the start of the input, while the negative
    offset is recorded in the block. *)
Theorem ReadResourceIdsBlock_negative_offset (vs : list Z) (rest : list byte)
    (size offset : Z) :
  offset < 0 ->
  Forall is_u32 vs ->
  Z.of_nat (length vs) = id_count size ->
  (ReadResourceIdsBlock (bytes.NewReader (words vs ++ rest)) size offset).1
  = ({| Block := {| Type_ := CHUNK_RESOURCEIDS; Size := size; Offset := offset |};
        Ids := vs |}, None).
Proof.
  intros Hneg Hvs Hcount.
  rewrite ReadResourceIdsBlock_spec. cbn [fst].
  assert (Hseek : (Seek offset 0 (bytes.NewReader (words vs ++ rest))).2
                  = bytes.NewReader (words vs ++ rest)).
  { simpl. unfold bytes.Seek. simpl.
    destruct (Z.ltb_spec offset 0); [reflexivity|lia]. }
  rewrite Hseek, <- Hcount, Nat2Z.id.
  rewrite (bytes_read_results_words vs _ rest); [|simpl; lia|reflexivity].
  cbn [fst]. rewrite map_map, (Forall_u32_map _ Hvs).
  do 2 f_equal. exact (List.map_id vs).
Qed.

Lemma ReadResourceIdsBlock_negative_offset_witness :
  (ReadResourceIdsBlock (bytes.NewReader (words [5; 6] ++ [])) 16 (-8)).1
  = ({| Block := {| Type_ := CHUNK_RESOURCEIDS; Size := 16; Offset := -8 |};
        Ids := [5; 6] |}, None).
Proof.
  apply (ReadResourceIdsBlock_negative_offset [5; 6] [] 16 (-8)).
  - lia.
  - constructor; [u32_solve|]. constructor; [u32_solve|constructor].
  - reflexivity.
Defined.

(** ** The string pool and the document, over any reader *)

Section Pool.

Context {R : Type} `{ReadSeeker R}.

Lemma read_DataOffset_spec (n : nat) :
  forall (dataOffset : list Z) (r : R),
  exists more,
    (read_DataOffset n dataOffset r).1 = dataOffset ++ more /\ length more = n.
Proof.
  induction n as [|n IH]; intros dataOffset r.
  - exists []. now rewrite app_nil_r.
  - cbn [read_DataOffset]. unfold bind.
    destruct (read_uint32 0 r) as [offset r'].
    destruct (IH (dataOffset ++ [offset]) r') as (more & -> & Hlen).
    exists (offset :: more). rewrite <- app_assoc. split; [reflexivity|].
    simpl. now rewrite Hlen.
Qed.

Lemma read_utf16_strings_spec (n : nat) :
  forall (i nstrings : Z) (strings : list string) (r : R),
  exists more,
    (read_utf16_strings n i nstrings strings r).1 = strings ++ more
    /\ length more = n.
Proof.
  induction n as [|n IH]; intros i nstrings strings r.
  - exists []. now rewrite app_nil_r.
  - cbn [read_utf16_strings]. unfold bind.
    destruct (read_uint16 0 r) as [sz r1].
    destruct (read_uint16s (replicate (Z.to_nat sz) 0) r1) as [stringbytes r2].
    destruct ((if negb (i =? u32 (nstrings - 1)) then seek 2 1 else ret ()) r2)
      as [[] r3].
    destruct (IH (i + 1) nstrings
                (strings ++ [string_of_runes (utf16_Decode stringbytes)]) r3)
      as (more & -> & Hlen).
    exists (string_of_runes (utf16_Decode stringbytes) :: more).
    rewrite <- app_assoc. split; [reflexivity|]. simpl. now rewrite Hlen.
Qed.

(** What the string-pool case does to the document, whatever it reads. *)
Lemma read_strings_chunk_spec (axml : AXML) (r : R) :
  let axml' := (read_strings_chunk axml r).1 in
  let n := Z.to_nat (Nstrings (stringsmeta axml')) in
  extends axml axml'
  /\ length (DataOffset (stringsmeta axml'))
     = (length (DataOffset (stringsmeta axml)) + n)%nat
  /\ length (Strings axml')
     = (length (Strings axml)
        + if (Z.land (Flags (stringsmeta axml')) UTF8_FLAG =? 0)%Z then n else 0)%nat.
Proof.
  unfold read_strings_chunk, bind, ret, extends.
  destruct (read_uint32 (Nstrings (stringsmeta axml)) r) as [nstrings r1].
  destruct (read_uint32 (StyleOffsetCount (stringsmeta axml)) r1) as [soc r2].
  destruct (read_uint32 (Flags (stringsmeta axml)) r2) as [flags r3].
  destruct (read_uint32 (StringDataOffset (stringsmeta axml)) r3) as [sdo r4].
  destruct (read_uint32 (Stylesoffset (stringsmeta axml)) r4) as [so r5].
  destruct (read_DataOffset_spec (Z.to_nat nstrings) (DataOffset (stringsmeta axml)) r5)
    as (offsets & Hoff & Hofflen).
  destruct (read_DataOffset (Z.to_nat nstrings) (DataOffset (stringsmeta axml)) r5)
    as [dataOffset r6].
  cbn [fst] in Hoff. subst dataOffset.
  destruct (Z.eqb_spec (Z.land flags UTF8_FLAG) 0) as [Hutf16|Hutf8]; cbn [negb].
  - destruct (read_utf16_strings_spec (Z.to_nat nstrings) 0 nstrings (Strings axml) r6)
      as (strs & Hstr & Hstrlen).
    destruct (read_utf16_strings (Z.to_nat nstrings) 0 nstrings (Strings axml) r6)
      as [strings r7].
    cbn [fst] in Hstr. subst strings. cbn.
    destruct (Z.eqb_spec (Z.land flags UTF8_FLAG) 0); [|contradiction].
    rewrite !length_app, Hofflen, Hstrlen.
    repeat split; apply prefix_app_r; reflexivity.
  - unfold read_unsized, binary_Read_unsized. cbn.
    destruct (Z.eqb_spec (Z.land flags UTF8_FLAG) 0); [contradiction|].
    rewrite !length_app, Hofflen.
    repeat split; try lia; try reflexivity. apply prefix_app_r. reflexivity.
Qed.

(** X9: on any input, also one cut short, the string-pool case appends
    exactly [Nstrings] offsets to [DataOffset] and, without [UTF8_FLAG],
    exactly [Nstrings] strings to [Strings] (with the flag: none); the
    offsets and strings of earlier pools stay in front, and [Header] and
    [size] are as before. *)
Theorem read_strings_chunk_appends (axml : AXML) (r : R) :
  let axml' := (read_strings_chunk axml r).1 in
  let n := Z.to_nat (Nstrings (stringsmeta axml')) in
  extends axml axml'
  /\ length (DataOffset (stringsmeta axml'))
     = (length (DataOffset (stringsmeta axml)) + n)%nat
  /\ length (Strings axml')
     = (length (Strings axml)
        + if (Z.land (Flags (stringsmeta axml')) UTF8_FLAG =? 0)%Z then n else 0)%nat.
Proof. exact (read_strings_chunk_spec axml r). Qed.

Lemma extends_refl (a : AXML) : extends a a.
Proof. unfold extends. repeat split; reflexivity. Qed.

Lemma extends_trans (a b c : AXML) : extends a b -> extends b c -> extends a c.
Proof.
  unfold extends. intros (H1 & H2 & H3 & H4) (H5 & H6 & H7 & H8).
  repeat split; try congruence; etrans; eassumption.
Qed.

(** An iteration either goes on with a document that extends the one
    before and with more output, or ends with the document as it is and
    one of the decoder's own errors, or panics. *)
Lemma ReadAXML_body_cases (l : Loop R) :
  match ReadAXML_body l with
  | Next l' =>
      extends (l_axml l) (l_axml l') /\ l_stdout l `prefix_of` l_stdout l'
  | Done (Returned axml err) stdout =>
      axml = l_axml l /\ stdout = l_stdout l
      /\ exists e, err = Some e /\ decode_error e
  | Done (IndexPanic _ _) stdout => stdout = l_stdout l
  end.
Proof.
  unfold ReadAXML_body, read_start_tag.
  destruct (read_uint32 (l_blocktype l) (l_reader l)) as [blocktype r1].
  destruct (read_uint32 (l_size l) r1) as [sz r2].
  destruct (read_strings_chunk_spec (l_axml l) r2) as (Hext & _).
  destruct (read_strings_chunk (l_axml l) r2) as [axml' r3].
  cbn [fst] in Hext.
  destruct (read_uint32 0 r2) as [lineNumber r4].
  destruct (read_uint32 0 r4) as [skip r5].
  destruct (read_uint32 0 r5) as [nsIdx r6].
  destruct (read_uint32 0 r6) as [nameIdx r7].
  destruct (read_uint32 0 r7) as [flag r8].
  destruct (read_unsized 0 r8) as [attributeCount r9].
  repeat match goal with
  | |- context [if ?c then _ else _] => destruct c
  | |- context [match ?o with Some _ => _ | None => _ end] => destruct o
  end;
  rewrite ?advance_Next; cbn [l_axml l_stdout];
  first
    [ split; [first [apply extends_refl|exact Hext]
             |first [reflexivity|apply prefix_app_r; reflexivity]]
    | split; [reflexivity|split; [reflexivity|eexists; split; [reflexivity|exact I]]]
    | reflexivity ].
Qed.

End Pool.

(** X10: along the chunk loop the document only grows: the document the
    loop returns has the [Header] and the [size] it was entered with,
    the strings and offsets decoded before are still in front (an index
    into [Strings] keeps its string), and the output only gets longer. *)
Theorem runs_extends {R : Type} `{ReadSeeker R} (l : Loop R) (axml : AXML)
    (err : option error) (stdout : list printed) :
  runs l (Returned axml err, stdout) ->
  extends (l_axml l) axml /\ l_stdout l `prefix_of` stdout.
Proof.
  intros Hruns.
  remember (Returned axml err, stdout) as res eqn:Hres.
  induction Hruns as [l Hge|l res out Hlt Hbody|l l' res Hlt Hbody Hruns IH].
  - injection Hres as <- _ <-. split; [apply extends_refl|reflexivity].
  - pose proof (ReadAXML_body_cases l) as Hcases. rewrite Hbody in Hcases.
    injection Hres as -> ->. destruct Hcases as (-> & -> & _).
    split; [apply extends_refl|reflexivity].
  - pose proof (ReadAXML_body_cases l) as Hcases. rewrite Hbody in Hcases.
    destruct Hcases as [Hext Hout]. destruct (IH Hres) as [Hext' Hout'].
    split; [eapply extends_trans; eassumption|etrans; eassumption].
Qed.

Lemma runs_extends_witness :
  extends (l_axml (entry two_chunk_doc 28)) (l_axml (entry two_chunk_doc 28))
  /\ l_stdout (entry two_chunk_doc 28)
     `prefix_of` [ChunkLine "CHUNK_RESOURCEIDS" 8 12; ChunkLine "CHUNK_XML_TEXT" 20 8].
Proof.
  apply (runs_extends (entry two_chunk_doc 28) _ None).
  apply (ReadAXML_loop_runs 2). vm_compute. reflexivity.
Defined.

Lemma runs_error {R : Type} `{ReadSeeker R} (l : Loop R)
    (res : result * list printed) :
  runs l res ->
  forall axml e stdout, res = (Returned axml (Some e), stdout) -> decode_error e.
Proof.
  induction 1 as [l Hge|l res out Hlt Hbody|l l' res Hlt Hbody Hruns IH];
    intros axml e stdout Hres.
  - discriminate Hres.
  - pose proof (ReadAXML_body_cases l) as Hcases. rewrite Hbody in Hcases.
    injection Hres as -> ->. destruct Hcases as (_ & _ & e' & [= <-] & He).
    exact He.
  - eapply IH. exact Hres.
Qed.

(** X11: [ReadAXML] never reports an error of its reader. Whatever the
    reader does, a returned error is one of the decoder's own four:
    wrong header, unknown chunk type, missing sentinel, wrong flag. A
    read or seek that fails is never the error returned. *)
Theorem ReadAXML_returns_no_read_error {R : Type} `{ReadSeeker R}
    (reader : R) (fuel : nat) (axml : AXML) (e : error) (stdout : list printed) :
  ReadAXML fuel reader = Some (Returned axml (Some e), stdout) ->
  decode_error e.
Proof.
  unfold ReadAXML, ReadAXML_enter.
  destruct (read_uint32 (Header AXML_zero) reader) as [header r1].
  cbn [Header size stringsmeta Strings].
  destruct (negb (header =? CHUNK_AXML_FILE)).
  - intros [= _ <- _]. exact I.
  - destruct (read_uint32 (size AXML_zero) r1) as [sz r2].
    intros Hloop. apply ReadAXML_loop_runs in Hloop.
    eapply runs_error; [exact Hloop|reflexivity].
Qed.

Lemma ReadAXML_returns_no_read_error_witness :
  decode_error (ErrUnknownChunkType 0).
Proof.
  apply (ReadAXML_returns_no_read_error
           (bytes.NewReader (PutUint32 CHUNK_AXML_FILE ++ PutUint32 100)) 1
           {| Header := CHUNK_AXML_FILE; size := 100;
              stringsmeta := stringsmeta AXML_zero; Strings := [] |}
           (ErrUnknownChunkType 0) []).
  vm_compute. reflexivity.
Defined.

(** ** [ReadAXML] on a [bytes.Reader]: the header *)

Lemma bytes_first_word (r : bytes.Reader) :
  0 <= bytes.i r ->
  (read_uint32 0 r).1 = first_word (bytes.remaining r).
Proof.
  intros Hi. unfold first_word, read_uint32.
  destruct (word_or_short (bytes.remaining r)) as [Hshort|(v & rest & Hrem & Hv)].
  - rewrite bytes_read_fail by assumption.
    apply Nat.ltb_lt in Hshort. now rewrite Hshort.
  - destruct (bytes_read_word r v 0 rest Hi Hrem) as [-> _].
    rewrite Hrem. cbn [fst].
    replace (length (PutUint32 v ++ rest) <? 4)%nat with false
      by (symmetry; apply Nat.ltb_ge; rewrite length_app, PutUint32_length; lia).
    rewrite (take_app_length' (PutUint32 v)) by reflexivity.
    now rewrite Uint32_PutUint32.
Qed.

(** X12: an input whose first word is not [CHUNK_AXML_FILE], and also an
    input of fewer than four bytes (the empty one too), makes [ReadAXML]
    return the "wrong header" error at once: nothing else is read and
    nothing is printed. A short input is not reported as cut short. *)
Theorem ReadAXML_wrong_header (data : list byte) (fuel : nat) :
  first_word data <> CHUNK_AXML_FILE ->
  ReadAXML fuel (bytes.NewReader data)
  = Some (Returned {| Header := first_word data; size := 0;
                      stringsmeta := stringsmeta AXML_zero; Strings := [] |}
                   (Some ErrWrongHeader), []).
Proof.
  intros Hne. unfold ReadAXML, ReadAXML_enter.
  pose proof (bytes_first_word (bytes.NewReader data) ltac:(simpl; lia)) as Hw.
  change (bytes.remaining (bytes.NewReader data)) with data in Hw.
  cbn [Header AXML_zero].
  destruct (read_uint32 0 (bytes.NewReader data)) as [header r1].
  cbn [fst] in Hw. subst header. cbn [Header].
  destruct (Z.eqb_spec (first_word data) CHUNK_AXML_FILE) as [Heq|_];
    [contradiction|reflexivity].
Qed.

Lemma ReadAXML_wrong_header_witness :
  ReadAXML 5 (bytes.NewReader [])
  = Some (Returned {| Header := first_word []; size := 0;
                      stringsmeta := stringsmeta AXML_zero; Strings := [] |}
                   (Some ErrWrongHeader), []).
Proof.
  apply (ReadAXML_wrong_header [] 5). vm_compute. discriminate.
Defined.

(** X13: an input with the right header whose size word is at most 8,
    or is missing, is a document without chunks: [ReadAXML] returns it
    with a nil error, reads nothing of what follows, and prints nothing.
    An input cut inside the size word is accepted as such a document,
    with size 0. *)
Theorem ReadAXML_no_chunks (rest : list byte) (fuel : nat) :
  first_word rest <= 8 ->
  ReadAXML fuel (bytes.NewReader (PutUint32 CHUNK_AXML_FILE ++ rest))
  = Some (Returned {| Header := CHUNK_AXML_FILE; size := first_word rest;
                      stringsmeta := stringsmeta AXML_zero; Strings := [] |}
                   None, []).
Proof.
  intros Hsize. unfold ReadAXML, ReadAXML_enter.
  destruct (bytes_read_uint32 (bytes.NewReader (PutUint32 CHUNK_AXML_FILE ++ rest))
              CHUNK_AXML_FILE rest) as (-> & Hi & Hrem);
    [simpl; lia|reflexivity|].
  change (u32 CHUNK_AXML_FILE) with CHUNK_AXML_FILE.
  cbn [Header size AXML_zero]. rewrite Z.eqb_refl. cbn [negb].
  pose proof (bytes_first_word _ Hi) as Hw. rewrite Hrem in Hw.
  destruct (read_uint32 0 (next4 (bytes.NewReader (PutUint32 CHUNK_AXML_FILE ++ rest))))
    as [sz r2].
  cbn [fst] in Hw. subst sz.
  apply ReadAXML_loop_exit. cbn. exact Hsize.
Qed.

Lemma ReadAXML_no_chunks_witness :
  ReadAXML 0 (bytes.NewReader (PutUint32 CHUNK_AXML_FILE ++ [x10; x00]))
  = Some (Returned {| Header := CHUNK_AXML_FILE; size := first_word [x10; x00];
                      stringsmeta := stringsmeta AXML_zero; Strings := [] |}
                   None, []).
Proof.
  apply (ReadAXML_no_chunks [x10; x00] 0). vm_compute. discriminate.
Defined.

(** ** [ReadAXML] on a [bytes.Reader]: the chunks *)

(** Comparisons of closed words, evaluated. *)
Ltac eval_eqb :=
  repeat match goal with
  | |- context [?a =? ?b] =>
      let v := eval vm_compute in (a =? b) in
      lazymatch v with
      | true => change (a =? b) with true
      | false => change (a =? b) with false
      end
  end.

(** X14: a start tag whose second body word is not the sentinel
    0xFFFFFFFF ends the call with the "Expected block" error; the words
    behind it, the flag among them, are not looked at. *)
Theorem start_tag_without_sentinel (l : Loop bytes.Reader)
    (sz lineNumber skip : Z) (rest : list byte) (fuel : nat) :
  0 <= bytes.i (l_reader l) ->
  bytes.remaining (l_reader l)
  = words [CHUNK_XML_START_TAG; sz; lineNumber; skip] ++ rest ->
  is_u32 skip ->
  skip <> SKIP_BLOCK ->
  l_offset l < size (l_axml l) ->
  ReadAXML_loop (S fuel) l
  = Some (Returned (l_axml l) (Some ErrExpectedBlock), l_stdout l).
Proof.
  intros Hi Hrem Hskip Hne Hlt. apply ReadAXML_loop_Done; [exact Hlt|].
  unfold ReadAXML_body.
  read_word Hi Hrem. read_word Hi Hrem.
  change (u32 CHUNK_XML_START_TAG) with CHUNK_XML_START_TAG.
  eval_eqb. cbv beta iota zeta. unfold read_start_tag.
  read_word Hi Hrem. read_word Hi Hrem.
  rewrite (u32_small _ Hskip).
  destruct (Z.eqb_spec skip SKIP_BLOCK) as [Heq|_]; [contradiction|reflexivity].
Qed.

Lemma start_tag_without_sentinel_witness :
  ReadAXML_loop 1 (entry bad_sentinel_doc 36)
  = Some (Returned (l_axml (entry bad_sentinel_doc 36)) (Some ErrExpectedBlock), []).
Proof.
  apply (start_tag_without_sentinel (entry bad_sentinel_doc 36) 28 7 0
           (words [0; 0; 0x00140013]) 0).
  - simpl. lia.
  - reflexivity.
  - u32_solve.
  - discriminate.
  - reflexivity.
Defined.

Lemma chunk_name_Some (blocktype : Z) (name : string) :
  chunk_name blocktype = Some name ->
  blocktype = CHUNK_RESOURCEIDS \/ blocktype = CHUNK_XML_END_NAMESPACE
  \/ blocktype = CHUNK_XML_END_TAG \/ blocktype = CHUNK_XML_START_NAMESPACE
  \/ blocktype = CHUNK_XML_TEXT.
Proof.
  unfold chunk_name.
  repeat match goal with
  | |- context [?a =? ?b] => destruct (Z.eqb_spec a b); [tauto|]
  end.
  discriminate.
Qed.

(** The iteration on a chunk that is only reported: one line, and on to
    the offset plus the size word, whatever the body holds. *)
Lemma ReadAXML_body_reported (l : Loop bytes.Reader) (blocktype sz : Z)
    (name : string) (rest : list byte) :
  0 <= bytes.i (l_reader l) ->
  bytes.remaining (l_reader l) = PutUint32 blocktype ++ PutUint32 sz ++ rest ->
  chunk_name blocktype = Some name ->
  is_u32 sz ->
  ReadAXML_body l
  = Next {| l_reader := {| bytes.s := bytes.s (l_reader l);
                           bytes.i := u32 (l_offset l + sz) |};
            l_axml := l_axml l; l_blocktype := blocktype; l_size := sz;
            l_offset := u32 (l_offset l + sz);
            l_stdout := l_stdout l ++ [ChunkLine name (l_offset l) sz] |}.
Proof.
  intros Hi Hrem Hname Hsz. unfold ReadAXML_body.
  read_word Hi Hrem. read_word Hi Hrem. rewrite (u32_small _ Hsz).
  destruct (chunk_name_Some _ _ Hname) as [-> | [-> | [-> | [-> | ->]]]];
    vm_compute in Hname; injection Hname as <-;
    match goal with
    | |- context [u32 ?c =? _] => change (u32 c) with c
    end;
    eval_eqb; cbv beta iota zeta;
    rewrite advance_Next, bytes_Seek_start by (apply Z.mod_pos_bound; lia);
    reflexivity.
Qed.

Lemma chunks_length_cons (c : Z * list byte) (cs : list (Z * list byte)) :
  Z.of_nat (length (concat (map chunk_bytes (c :: cs))))
  = 8 + Z.of_nat (length c.2) + Z.of_nat (length (concat (map chunk_bytes cs))).
Proof.
  cbn [map concat]. unfold chunk_bytes at 1.
  rewrite !length_app, !PutUint32_length. lia.
Qed.

(** The loop over reported chunks, from any state that stands at their
    start. *)
Lemma ReadAXML_loop_reported (cs : list (Z * list byte)) :
  forall (l : Loop bytes.Reader) (rest : list byte),
  bytes.i (l_reader l) = l_offset l ->
  0 <= l_offset l ->
  bytes.remaining (l_reader l) = concat (map chunk_bytes cs) ++ rest ->
  Forall (fun c => is_Some (chunk_name c.1)) cs ->
  size (l_axml l) = l_offset l + Z.of_nat (length (concat (map chunk_bytes cs))) ->
  size (l_axml l) < 2 ^ 32 ->
  ReadAXML_loop (length cs) l
  = Some (Returned (l_axml l) None, l_stdout l ++ chunk_lines (l_offset l) cs).
Proof.
  induction cs as [|c cs IH]; intros l rest Hpos Hoff Hrem Hnames Hsize Hmax.
  - rewrite app_nil_r. apply ReadAXML_loop_exit. simpl in Hsize. lia.
  - apply Forall_cons in Hnames as [[name Hname] Hnames].
    rewrite chunks_length_cons in Hsize.
    set (sz := 8 + Z.of_nat (length c.2)) in *.
    cbn [map concat] in Hrem. unfold chunk_bytes at 1 in Hrem. fold sz in Hrem.
    rewrite <- !app_assoc in Hrem.
    assert (Hsz8 : 8 <= sz) by (unfold sz; lia).
    assert (Hlt : l_offset l < size (l_axml l)) by lia.
    assert (Hi : 0 <= bytes.i (l_reader l)) by lia.
    assert (Hsz : is_u32 sz) by (unfold is_u32; lia).
    assert (Hnext : u32 (l_offset l + sz) = l_offset l + sz)
      by (apply u32_small; unfold is_u32; lia).
    pose proof (ReadAXML_body_reported l c.1 sz name _ Hi Hrem Hname Hsz) as Hbody.
    rewrite Hnext in Hbody.
    cbn [length]. rewrite (ReadAXML_loop_Next _ _ _ Hlt Hbody).
    rewrite (IH _ rest); cbn [l_reader l_axml l_offset l_stdout bytes.i bytes.s].
    + cbn [chunk_lines]. fold sz. rewrite Hname. cbn [default from_option id].
      now rewrite <- app_assoc.
    + reflexivity.
    + lia.
    + unfold bytes.remaining in *. cbn [bytes.i bytes.s].
      rewrite Hpos in Hrem.
      replace (Z.to_nat (l_offset l + sz))
        with (Z.to_nat (l_offset l) + (4 + (4 + length c.2)))%nat by lia.
      rewrite <- drop_drop, Hrem, <- !drop_drop.
      rewrite (drop_app_length' (PutUint32 c.1)) by reflexivity.
      rewrite (drop_app_length' (PutUint32 sz)) by reflexivity.
      now rewrite drop_app_length.
    + exact Hnames.
    + lia.
    + exact Hmax.
Qed.

(** X15: the walk over a document. On a document whose header declares
    its length and whose chunks are all of the five types that are only
    reported (resource ids, namespace start and end, tag end, text), each
    with a size word that is the length of the chunk, [ReadAXML] returns
    a nil error after one iteration per chunk, with one line per chunk
    that gives the chunk's offset and size. The bodies are skipped
    unread (no resource id is decoded), and what follows the declared
    length is ignored. *)
Theorem ReadAXML_walks_reported_chunks (cs : list (Z * list byte))
    (rest : list byte) :
  let chunks := concat (map chunk_bytes cs) in
  let total := 8 + Z.of_nat (length chunks) in
  Forall (fun c => is_Some (chunk_name c.1)) cs ->
  total < 2 ^ 32 ->
  ReadAXML (length cs)
    (bytes.NewReader (PutUint32 CHUNK_AXML_FILE ++ PutUint32 total ++ chunks ++ rest))
  = Some (Returned {| Header := CHUNK_AXML_FILE; size := total;
                      stringsmeta := stringsmeta AXML_zero; Strings := [] |}
                   None, chunk_lines 8 cs).
Proof.
  intros chunks total Hnames Hmax. unfold ReadAXML.
  rewrite (ReadAXML_enter_bytes total (chunks ++ rest)).
  rewrite (u32_small total) by (unfold is_u32, total; lia).
  rewrite (ReadAXML_loop_reported cs _ rest); try reflexivity; try assumption.
  simpl. lia.
Qed.

Lemma ReadAXML_walks_reported_chunks_witness :
  ReadAXML 2
    (bytes.NewReader
       (PutUint32 CHUNK_AXML_FILE ++ PutUint32 28
        ++ concat (map chunk_bytes [(CHUNK_RESOURCEIDS, PutUint32 0x01010000);
                                    (CHUNK_XML_TEXT, [])])
        ++ [x07]))
  = Some (Returned {| Header := CHUNK_AXML_FILE; size := 28;
                      stringsmeta := stringsmeta AXML_zero; Strings := [] |}
                   None,
          [ChunkLine "CHUNK_RESOURCEIDS" 8 12; ChunkLine "CHUNK_XML_TEXT" 20 8]).
Proof.
  apply (ReadAXML_walks_reported_chunks
           [(CHUNK_RESOURCEIDS, PutUint32 0x01010000); (CHUNK_XML_TEXT, [])] [x07]).
  - constructor; [eexists; reflexivity|]. constructor; [eexists; reflexivity|constructor].
  - vm_compute. reflexivity.
Defined.

(** ** [ReadAXML] on a [bytes.Reader]: the UTF-16 string pool *)

Lemma Uint16_PutUint16 (v : Z) : Uint16 (PutUint16 v) = v mod 2 ^ 16.
Proof.
  unfold Uint16, PutUint16. rewrite !Z_of_byte_of_Z.
  apply Z.bits_inj'. intros n Hn.
  rewrite !Z.lor_spec, Z.testbit_mod_pow2 by lia.
  rewrite !Z.shiftl_spec by lia.
  destruct (Z.ltb_spec n 8); [byte_bits n|].
  destruct (Z.ltb_spec n 16); byte_bits n.
Qed.

Lemma PutUint16_length (v : Z) : length (PutUint16 v) = 2%nat.
Proof. reflexivity. Qed.

Lemma units_length (units : list Z) :
  length (concat (map PutUint16 units)) = (2 * length units)%nat.
Proof.
  induction units as [|u units IH]; [reflexivity|].
  cbn [map concat]. rewrite length_app, PutUint16_length, IH. simpl. lia.
Qed.

Lemma decode_uint16s_units (units : list Z) :
  Forall is_u16 units -> decode_uint16s (concat (map PutUint16 units)) = units.
Proof.
  induction 1 as [|u units Hu _ IH]; [reflexivity|].
  cbn [map concat]. change (PutUint16 u ++ ?l) with
    (byte_of_Z u :: byte_of_Z (Z.shiftr u 8) :: l).
  cbn [decode_uint16s]. rewrite IH. f_equal.
  change [byte_of_Z u; byte_of_Z (Z.shiftr u 8)] with (PutUint16 u).
  rewrite Uint16_PutUint16. apply Z.mod_small. exact Hu.
Qed.

(** [io.ReadFull] of the next [n] bytes of a reader that has them. *)
Lemma bytes_io_ReadFull (r : bytes.Reader) (bs rest : list byte) :
  0 <= bytes.i r ->
  bytes.remaining r = bs ++ rest ->
  io_ReadFull (length bs) r
  = (inl bs, {| bytes.s := bytes.s r;
                bytes.i := bytes.i r + Z.of_nat (length bs) |})
  /\ bytes.remaining {| bytes.s := bytes.s r;
                        bytes.i := bytes.i r + Z.of_nat (length bs) |} = rest.
Proof.
  intros Hi Hrem. split.
  - unfold io_ReadFull. destruct bs as [|b bs].
    + destruct r as [s i]. simpl. do 2 f_equal. lia.
    + set (n := length (b :: bs)). simpl ReadFull. unfold bytes.ReadFull.
      unfold bytes.remaining in Hrem.
      assert (Hl := f_equal length Hrem).
      rewrite length_drop, length_app in Hl. fold n in Hl.
      assert (0 < n)%nat by (unfold n; simpl; lia).
      destruct (Z.leb_spec (Z.of_nat (length (bytes.s r))) (bytes.i r)); [lia|].
      rewrite Hrem.
      replace (n <=? length ((b :: bs) ++ rest))%nat with true
        by (symmetry; apply Nat.leb_le; rewrite length_app; fold n; lia).
      rewrite (take_app_length' (b :: bs) rest n) by reflexivity.
      destruct n; [lia|reflexivity].
  - unfold bytes.remaining in *. cbn [bytes.i bytes.s].
    replace (Z.to_nat (bytes.i r + Z.of_nat (length bs)))
      with (Z.to_nat (bytes.i r) + length bs)%nat by lia.
    rewrite <- drop_drop, Hrem. apply drop_app_length.
Qed.

Lemma bytes_read_uint16 (r : bytes.Reader) (v old : Z) (rest : list byte) :
  0 <= bytes.i r ->
  bytes.remaining r = PutUint16 v ++ rest ->
  read_uint16 old r
  = (v mod 2 ^ 16, {| bytes.s := bytes.s r; bytes.i := bytes.i r + 2 |})
  /\ bytes.remaining {| bytes.s := bytes.s r; bytes.i := bytes.i r + 2 |} = rest.
Proof.
  intros Hi Hrem.
  destruct (bytes_io_ReadFull r (PutUint16 v) rest Hi Hrem) as [Hread Hrem'].
  split; [|exact Hrem'].
  unfold read_uint16, binary_Read_uint16.
  change 2%nat with (length (PutUint16 v)). rewrite Hread.
  now rewrite Uint16_PutUint16.
Qed.

Lemma bytes_read_uint16s (r : bytes.Reader) (units : list Z) (rest : list byte) :
  0 <= bytes.i r ->
  Forall is_u16 units ->
  bytes.remaining r = concat (map PutUint16 units) ++ rest ->
  read_uint16s (replicate (length units) 0) r
  = (units, {| bytes.s := bytes.s r;
               bytes.i := bytes.i r + 2 * Z.of_nat (length units) |})
  /\ bytes.remaining {| bytes.s := bytes.s r;
                        bytes.i := bytes.i r + 2 * Z.of_nat (length units) |}
     = rest.
Proof.
  intros Hi Hunits Hrem.
  destruct (bytes_io_ReadFull r _ rest Hi Hrem) as [Hread Hrem'].
  rewrite units_length in Hread, Hrem'.
  replace (Z.of_nat (2 * length units)) with (2 * Z.of_nat (length units))
    in Hread, Hrem' by lia.
  split; [|exact Hrem'].
  unfold read_uint16s, binary_Read_uint16s.
  rewrite length_replicate, Hread. now rewrite decode_uint16s_units.
Qed.

(** The UTF-16 loop on a reader that has the strings. *)
Lemma read_utf16_strings_bytes (strs : list (list Z)) :
  forall (done : list string) (i nstrings : Z) (r : bytes.Reader)
         (rest : list byte),
  0 <= bytes.i r ->
  bytes.remaining r = utf16_strings strs ++ rest ->
  Forall (fun units => Forall is_u16 units /\ is_u16 (Z.of_nat (length units))) strs ->
  0 <= i ->
  i + Z.of_nat (length strs) = nstrings ->
  nstrings < 2 ^ 32 ->
  exists r',
    read_utf16_strings (length strs) i nstrings done r
    = (done ++ map (fun units => string_of_runes (utf16_Decode units)) strs, r')
    /\ 0 <= bytes.i r'
    /\ bytes.s r' = bytes.s r
    /\ bytes.remaining r' = rest.
Proof.
  induction strs as [|units strs IH];
    intros done i nstrings r rest Hi Hrem Hstrs Hi0 Hn Hmax.
  - exists r. cbn. rewrite app_nil_r. auto.
  - apply Forall_cons in Hstrs as [[Hunits Hlen] Hstrs].
    cbn [utf16_strings] in Hrem. unfold utf16_string in Hrem.
    rewrite <- !app_assoc in Hrem.
    cbn [length read_utf16_strings]. unfold bind.
    destruct (bytes_read_uint16 r _ 0 _ Hi Hrem) as [-> Hrem1].
    rewrite (Z.mod_small _ _ Hlen), Nat2Z.id.
    assert (Hi1 : 0 <= bytes.i {| bytes.s := bytes.s r; bytes.i := bytes.i r + 2 |})
      by (simpl; lia).
    destruct (bytes_read_uint16s _ units _ Hi1 Hunits Hrem1) as [-> Hrem2].
    cbn [bytes.s bytes.i] in *.
    destruct strs as [|units' strs].
    + replace (i =? u32 (nstrings - 1)) with true.
      2:{ symmetry. apply Z.eqb_eq. cbn [length] in Hn.
          rewrite u32_small by (unfold is_u32; lia). lia. }
      cbn [negb]. unfold ret. cbn [read_utf16_strings map].
      eexists. split; [reflexivity|]. cbn [bytes.i bytes.s].
      split; [lia|]. split; [reflexivity|].
      now rewrite app_nil_l in Hrem2.
    + replace (i =? u32 (nstrings - 1)) with false.
      2:{ symmetry. apply Z.eqb_neq. cbn [length] in Hn.
          rewrite u32_small by (unfold is_u32; lia). lia. }
      cbn [negb]. unfold seek. cbn [Seek bytes_ReadSeeker]. unfold bytes.Seek.
      cbn [bytes.i bytes.s]. change (1 =? 0) with false. change (1 =? 1) with true.
      cbv iota.
      match goal with
      | |- context [?p <? 0] =>
          replace (p <? 0) with false by (symmetry; apply Z.ltb_ge; lia)
      end.
      set (r2 := {| bytes.s := bytes.s r;
                    bytes.i := bytes.i r + 2 + 2 * Z.of_nat (length units) + 2 |}).
      destruct (IH (done ++ [string_of_runes (utf16_Decode units)]) (i + 1)
                  nstrings r2 rest) as (r' & -> & Hi' & Hs' & Hrem');
        [unfold r2; simpl; lia| |exact Hstrs|lia|cbn [length] in *; lia|exact Hmax|].
      * unfold bytes.remaining in *. unfold r2. cbn [bytes.i bytes.s] in *.
        replace (Z.to_nat (bytes.i r + 2 + 2 * Z.of_nat (length units) + 2))
          with (Z.to_nat (bytes.i r + 2 + 2 * Z.of_nat (length units)) + 2)%nat
          by lia.
        rewrite <- drop_drop, Hrem2. reflexivity.
      * exists r'. split; [|auto].
        cbn [map]. now rewrite <- app_assoc.
Qed.

Lemma read_DataOffset_bytes (offsets : list Z) :
  forall (dataOffset : list Z) (r : bytes.Reader) (rest : list byte),
  0 <= bytes.i r ->
  bytes.remaining r = words offsets ++ rest ->
  read_DataOffset (length offsets) dataOffset r
  = (dataOffset ++ map u32 offsets,
     {| bytes.s := bytes.s r;
        bytes.i := bytes.i r + 4 * Z.of_nat (length offsets) |}).
Proof.
  induction offsets as [|o offsets IH]; intros dataOffset r rest Hi Hrem.
  - cbn. rewrite app_nil_r. destruct r as [s i]. simpl. do 2 f_equal. lia.
  - cbn [length read_DataOffset]. unfold bind.
    read_word Hi Hrem.
    rewrite (IH _ _ rest Hi Hrem). cbn [map next4 bytes.s bytes.i].
    rewrite <- app_assoc. do 2 f_equal. lia.
Qed.

(** The string-pool case on a reader that has the five words, the
    offsets and the strings. *)
Lemma read_strings_chunk_utf16 (axml : AXML) (r : bytes.Reader)
    (soc flags sdo so : Z) (offsets : list Z) (strs : list (list Z))
    (rest : list byte) :
  let n := Z.of_nat (length strs) in
  0 <= bytes.i r ->
  bytes.remaining r
  = words [n; soc; flags; sdo; so] ++ words offsets ++ utf16_strings strs ++ rest ->
  length offsets = length strs ->
  n < 2 ^ 32 ->
  is_u32 soc -> is_u32 flags -> is_u32 sdo -> is_u32 so ->
  Forall is_u32 offsets ->
  Z.land flags UTF8_FLAG = 0 ->
  Forall (fun units => Forall is_u16 units /\ is_u16 (Z.of_nat (length units))) strs ->
  exists r',
    read_strings_chunk axml r
    = ({| Header := Header axml; size := size axml;
          stringsmeta := {| Nstrings := n; StyleOffsetCount := soc; Flags := flags;
                            StringDataOffset := sdo; Stylesoffset := so;
                            DataOffset := DataOffset (stringsmeta axml) ++ offsets |};
          Strings := Strings axml
                     ++ map (fun units => string_of_runes (utf16_Decode units)) strs |},
       r')
    /\ bytes.s r' = bytes.s r.
Proof.
  intros n Hi Hrem Hlen Hmax Hsoc Hflags Hsdo Hso Hoffs Hutf16 Hstrs.
  assert (Hn : is_u32 n) by (unfold is_u32, n; lia).
  unfold read_strings_chunk, bind, ret.
  read_word Hi Hrem. read_word Hi Hrem. read_word Hi Hrem.
  read_word Hi Hrem. read_word Hi Hrem.
  change (words []) with (@nil byte) in Hrem. rewrite app_nil_l in Hrem.
  rewrite (u32_small _ Hn), (u32_small _ Hsoc), (u32_small _ Hflags),
    (u32_small _ Hsdo), (u32_small _ Hso).
  unfold n at 1. rewrite Nat2Z.id, <- Hlen.
  rewrite (read_DataOffset_bytes offsets _ _ _ Hi Hrem).
  rewrite (Forall_u32_map _ Hoffs), Hutf16. cbn [Z.eqb negb].
  match goal with
  | |- context [read_utf16_strings _ _ _ _ ?r6] =>
      destruct (read_utf16_strings_bytes strs (Strings axml) 0 n r6 rest)
        as (r' & Hloop & _ & Hs & _)
  end.
  - cbn [bytes.i]. lia.
  - now apply bytes_read_words.
  - exact Hstrs.
  - lia.
  - unfold n. lia.
  - exact Hmax.
  - exists r'. replace (Z.to_nat n) with (length strs) by (unfold n; lia).
    rewrite Hloop. split; [reflexivity|exact Hs].
Qed.

(** X16: a document whose one chunk is a string pool in UTF-16LE (no
    [UTF8_FLAG]): five words, one offset per string, and the strings one
    after the other, each with its length in code units in front and two
    bytes between it and the next. [ReadAXML] returns it with a nil
    error, the five words and the offsets stored as they are, and one
    string per entry, decoded from its code units. The strings are read
    in sequence: the offsets and [StringDataOffset] are stored and not
    used, and the chunk's size word only moves the offset on. *)
Theorem ReadAXML_utf16_pool (total sz soc flags sdo so : Z) (offsets : list Z)
    (strs : list (list Z)) (rest : list byte) :
  let n := Z.of_nat (length strs) in
  8 < total <= 8 + sz ->
  8 + sz < 2 ^ 32 ->
  length offsets = length strs ->
  n < 2 ^ 32 ->
  is_u32 soc /\ is_u32 flags /\ is_u32 sdo /\ is_u32 so ->
  Forall is_u32 offsets ->
  Z.land flags UTF8_FLAG = 0 ->
  Forall (fun units => Forall is_u16 units /\ is_u16 (Z.of_nat (length units))) strs ->
  ReadAXML 1
    (bytes.NewReader
       (PutUint32 CHUNK_AXML_FILE ++ PutUint32 total
        ++ words [CHUNK_STRINGS; sz; n; soc; flags; sdo; so]
        ++ words offsets ++ utf16_strings strs ++ rest))
  = Some (Returned
            {| Header := CHUNK_AXML_FILE; size := total;
               stringsmeta := {| Nstrings := n; StyleOffsetCount := soc;
                                 Flags := flags; StringDataOffset := sdo;
                                 Stylesoffset := so; DataOffset := offsets |};
               Strings := map (fun units => string_of_runes (utf16_Decode units))
                              strs |}
            None, []).
Proof.
  intros n Htotal Hsz Hlen Hmax (Hsoc & Hflags & Hsdo & Hso) Hoffs Hutf16 Hstrs.
  unfold ReadAXML. rewrite ReadAXML_enter_bytes.
  rewrite (u32_small total) by (unfold is_u32; lia).
  match goal with
  | |- ReadAXML_loop 1 ?l = _ => set (l0 := l)
  end.
  assert (Hbody : ReadAXML_body l0
    = Next {| l_reader := {| bytes.s := bytes.s (l_reader l0); bytes.i := 8 + sz |};
              l_axml := {| Header := CHUNK_AXML_FILE; size := total;
                           stringsmeta :=
                             {| Nstrings := n; StyleOffsetCount := soc;
                                Flags := flags; StringDataOffset := sdo;
                                Stylesoffset := so; DataOffset := offsets |};
                           Strings := map (fun units =>
                                             string_of_runes (utf16_Decode units))
                                          strs |};
              l_blocktype := CHUNK_STRINGS; l_size := sz; l_offset := 8 + sz;
              l_stdout := [] |}).
  { assert (Hi : 0 <= bytes.i (l_reader l0)) by (simpl; lia).
    assert (Hrem : bytes.remaining (l_reader l0)
                   = words [CHUNK_STRINGS; sz; n; soc; flags; sdo; so]
                     ++ words offsets ++ utf16_strings strs ++ rest).
    { unfold l0, entry, bytes.remaining. cbn [l_reader bytes.i bytes.s].
      change (Z.to_nat 8) with (4 + 4)%nat. rewrite <- drop_drop.
      rewrite (drop_app_length' (PutUint32 CHUNK_AXML_FILE)) by reflexivity.
      now rewrite (drop_app_length' (PutUint32 total)) by reflexivity. }
    unfold ReadAXML_body.
    read_word Hi Hrem. read_word Hi Hrem.
    change (u32 CHUNK_STRINGS) with CHUNK_STRINGS. eval_eqb. cbv beta iota zeta.
    destruct (read_strings_chunk_utf16 (l_axml l0) _ soc flags sdo so offsets
                strs rest Hi Hrem Hlen Hmax Hsoc Hflags Hsdo Hso Hoffs Hutf16
                Hstrs) as (r' & -> & Hs).
    rewrite advance_Next, bytes_Seek_start by (apply Z.mod_pos_bound; lia).
    rewrite (u32_small sz) by (unfold is_u32; lia).
    change (l_offset l0) with 8.
    rewrite (u32_small (8 + sz)) by (unfold is_u32; lia).
    cbn [snd bytes.s]. rewrite Hs. reflexivity. }
  rewrite (ReadAXML_loop_Next 0 l0 _ ltac:(simpl; lia) Hbody).
  apply ReadAXML_loop_exit. cbn. lia.
Qed.

Lemma ReadAXML_utf16_pool_witness :
  ReadAXML 1
    (bytes.NewReader
       (PutUint32 CHUNK_AXML_FILE ++ PutUint32 60
        ++ words [CHUNK_STRINGS; 52; Z.of_nat 2; 0; 0; 36; 0]
        ++ words [0; 8] ++ utf16_strings [[0x68; 0x69]; [0x41]]
        ++ [x00; x00; x00; x00]))
  = Some (Returned
            {| Header := CHUNK_AXML_FILE; size := 60;
               stringsmeta := {| Nstrings := Z.of_nat 2; StyleOffsetCount := 0;
                                 Flags := 0; StringDataOffset := 36;
                                 Stylesoffset := 0; DataOffset := [0; 8] |};
               Strings := map (fun units => string_of_runes (utf16_Decode units))
                              [[0x68; 0x69]; [0x41]] |}
            None, []).
Proof.
  apply (ReadAXML_utf16_pool 60 52 0 0 36 0 [0; 8] [[0x68; 0x69]; [0x41]]
           [x00; x00; x00; x00]).
  - lia.
  - lia.
  - reflexivity.
  - simpl. lia.
  - repeat split; vm_compute; congruence.
  - constructor; [u32_solve|]. constructor; [u32_solve|constructor].
  - reflexivity.
  - constructor.
    + split; [|unfold is_u16; simpl; lia].
      constructor; [unfold is_u16; lia|]. constructor; [unfold is_u16; lia|constructor].
    + constructor; [|constructor].
      split; [|unfold is_u16; simpl; lia].
      constructor; [unfold is_u16; lia|constructor].
Defined.

(** The layout of the witness is the document [utf16_pool_doc]. *)
Example utf16_pool_doc_layout :
  utf16_pool_doc
  = PutUint32 CHUNK_AXML_FILE ++ PutUint32 60
    ++ words [CHUNK_STRINGS; 52; 2; 0; 0; 36; 0]
    ++ words [0; 8] ++ utf16_strings [[0x68; 0x69]; [0x41]]
    ++ [x00; x00; x00; x00].
Proof. vm_compute. reflexivity. Qed.

(** X17: code units below 0x80 decode to themselves: the string stored
    for them holds one byte per code unit, the code unit itself. *)
Theorem ascii_units_decode_to_their_bytes (units : list Z) :
  Forall (fun u => 0 <= u < 0x80) units ->
  string_of_runes (utf16_Decode units) = string_of_list_byte (map byte_of_Z units).
Proof.
  intros Hunits. unfold string_of_runes. f_equal.
  induction Hunits as [|u units Hu _ IH]; [reflexivity|].
  cbn [utf16_Decode map].
  replace (u <? surr1) with true
    by (symmetry; apply Z.ltb_lt; unfold surr1; lia).
  cbn [orb map concat]. rewrite IH.
  unfold encoderune.
  replace (0 <=? u) with true by (symmetry; apply Z.leb_le; lia).
  replace (u <=? 0x7F) with true by (symmetry; apply Z.leb_le; lia).
  reflexivity.
Qed.

Lemma ascii_units_decode_to_their_bytes_witness :
  string_of_runes (utf16_Decode [0x68; 0x69]) = "hi"%string.
Proof.
  apply (ascii_units_decode_to_their_bytes [0x68; 0x69]).
  constructor; [lia|]. constructor; [lia|constructor].
Defined.

(** ** The receiver of [UnmarshalBinary] *)

(** X18: a successful [UnmarshalBinary] depends on its receiver only
    through the [Offset], which it does not touch: decoding the same
    input into any other receiver succeeds too and gives the same
    [Type], [Size] and [Ids], whatever that receiver held before. *)
Theorem UnmarshalBinary_overwrites_receiver (recv recv' b : ResourceIdsBlock)
    (data : list byte) :
  UnmarshalBinary recv data = (b, None) ->
  UnmarshalBinary recv' data = (set_Offset (Offset (Block recv')) b, None).
Proof.
  intros Hdec.
  destruct (UnmarshalBinary_inv recv b data Hdec)
    as (rest & Hdata & Hty & Hsz & Hids & Hcount & Hoff).
  rewrite Hdata.
  rewrite UnmarshalBinary_full by (now rewrite (u32_small _ Hsz)).
  rewrite (u32_small _ Hsz), (Forall_u32_map _ Hids).
  unfold set_Offset. now rewrite Hty.
Qed.

Lemma UnmarshalBinary_overwrites_receiver_witness :
  UnmarshalBinary stale_block
    (PutUint32 CHUNK_RESOURCEIDS ++ PutUint32 13 ++ PutUint32 99)
  = ({| Block := {| Type_ := CHUNK_RESOURCEIDS; Size := 13; Offset := 0 |};
        Ids := [99] |}, None).
Proof.
  apply (UnmarshalBinary_overwrites_receiver ResourceIdsBlock_zero stale_block
           {| Block := {| Type_ := CHUNK_RESOURCEIDS; Size := 13; Offset := 0 |};
              Ids := [99] |}
           (PutUint32 CHUNK_RESOURCEIDS ++ PutUint32 13 ++ PutUint32 99)).
  vm_compute. reflexivity.
Defined.

(** ** [ReadAXML] on a [bytes.Reader]: past the end of the input *)

(** A reader at or past the end of its input reads nothing: the variable
    keeps its value and the reader stays where it is. *)
Lemma bytes_read_at_end (r : bytes.Reader) (old : Z) :
  Z.of_nat (length (bytes.s r)) <= bytes.i r ->
  read_uint32 old r = (old, r).
Proof.
  intros Hend. unfold read_uint32, binary_Read_uint32, io_ReadFull.
  simpl. unfold bytes.ReadFull.
  destruct (Z.leb_spec (Z.of_nat (length (bytes.s r))) (bytes.i r)); [reflexivity|lia].
Qed.

(** X19: a document that declares more than 8 bytes and ends with its
    header, or within three bytes after it, fails with the "unknown chunk
    type" error for the type 0: the reads of the chunk header fail, the
    type variable keeps its initial zero, and the failed reads are not
    reported. *)
Theorem ReadAXML_cut_after_header (total : Z) (tail : list byte) (fuel : nat) :
  is_u32 total ->
  8 < total ->
  (length tail < 4)%nat ->
  ReadAXML (S fuel)
    (bytes.NewReader (PutUint32 CHUNK_AXML_FILE ++ PutUint32 total ++ tail))
  = Some (Returned {| Header := CHUNK_AXML_FILE; size := total;
                      stringsmeta := stringsmeta AXML_zero; Strings := [] |}
                   (Some (ErrUnknownChunkType 0)), []).
Proof.
  intros Htotal Hgt Htail. unfold ReadAXML.
  rewrite ReadAXML_enter_bytes, (u32_small _ Htotal).
  apply ReadAXML_loop_Done; [simpl; lia|].
  match goal with
  | |- ReadAXML_body ?l = _ =>
      pose proof (ReadAXML_body_unknown l) as Hbody;
      assert (Hty : chunk_type_read l = 0)
  end.
  { unfold chunk_type_read, read_uint32, entry. cbn [l_reader l_blocktype].
    rewrite bytes_read_fail; [reflexivity|simpl; lia|].
    unfold bytes.remaining. cbn [bytes.i bytes.s].
    change (Z.to_nat 8) with (4 + 4)%nat. rewrite <- drop_drop.
    rewrite (drop_app_length' (PutUint32 CHUNK_AXML_FILE)) by reflexivity.
    rewrite (drop_app_length' (PutUint32 total)) by reflexivity.
    exact Htail. }
  rewrite Hty in Hbody. apply Hbody. reflexivity.
Qed.

Lemma ReadAXML_cut_after_header_witness :
  ReadAXML 1 (bytes.NewReader (PutUint32 CHUNK_AXML_FILE ++ PutUint32 100 ++ [x02; x01]))
  = Some (Returned {| Header := CHUNK_AXML_FILE; size := 100;
                      stringsmeta := stringsmeta AXML_zero; Strings := [] |}
                   (Some (ErrUnknownChunkType 0)), []).
Proof.
  apply (ReadAXML_cut_after_header 100 [x02; x01] 0).
  - u32_solve.
  - lia.
  - simpl. lia.
Defined.

(** One iteration of a reader at or past the end, with a reported chunk
    type in the type variable. *)
Lemma ReadAXML_body_at_end (l : Loop bytes.Reader) (name : string) :
  Z.of_nat (length (bytes.s (l_reader l))) <= bytes.i (l_reader l) ->
  chunk_name (l_blocktype l) = Some name ->
  ReadAXML_body l
  = Next {| l_reader := {| bytes.s := bytes.s (l_reader l);
                           bytes.i := u32 (l_offset l + l_size l) |};
            l_axml := l_axml l; l_blocktype := l_blocktype l; l_size := l_size l;
            l_offset := u32 (l_offset l + l_size l);
            l_stdout := l_stdout l ++ [ChunkLine name (l_offset l) (l_size l)] |}.
Proof.
  intros Hend Hname. unfold ReadAXML_body.
  rewrite !bytes_read_at_end by exact Hend.
  destruct (chunk_name_Some _ _ Hname) as [Hty | [Hty | [Hty | [Hty | Hty]]]];
    rewrite Hty in *; vm_compute in Hname; injection Hname as <-;
    eval_eqb; cbv beta iota zeta;
    rewrite advance_Next, bytes_Seek_start by (apply Z.mod_pos_bound; lia);
    reflexivity.
Qed.

(** X20: an input that ends before the size its header declares is not
    refused. Once the reader is at or past the end, with the header of a
    reported chunk (type and size [sz > 0]) in the loop's variables, each
    iteration fails to read, keeps that header, reports it once more and
    moves on by [sz]: the loop returns a nil error after as many
    repetitions as it takes to reach the declared size. *)
Theorem ReadAXML_repeats_last_chunk (k : nat) :
  forall (l : Loop bytes.Reader) (name : string),
  Z.of_nat (length (bytes.s (l_reader l))) <= bytes.i (l_reader l) ->
  bytes.i (l_reader l) = l_offset l ->
  chunk_name (l_blocktype l) = Some name ->
  0 < l_size l ->
  l_offset l + Z.of_nat k * l_size l < 2 ^ 32 ->
  l_offset l + (Z.of_nat k - 1) * l_size l < size (l_axml l)
  <= l_offset l + Z.of_nat k * l_size l ->
  ReadAXML_loop k l
  = Some (Returned (l_axml l) None,
          l_stdout l ++ repeated_lines name (l_size l) (l_offset l) k).
Proof.
  induction k as [|k IH]; intros l name Hend Hpos Hname Hsz Hmax Hsize.
  - cbn [repeated_lines]. rewrite app_nil_r. apply ReadAXML_loop_exit. lia.
  - pose proof (ReadAXML_body_at_end l name Hend Hname) as Hbody.
    assert (Hnext : u32 (l_offset l + l_size l) = l_offset l + l_size l)
      by (apply u32_small; unfold is_u32; nia).
    rewrite Hnext in Hbody.
    rewrite (ReadAXML_loop_Next k l _ ltac:(nia) Hbody).
    rewrite (IH _ name); cbn [l_reader l_axml l_blocktype l_size l_offset l_stdout
                              bytes.i bytes.s].
    + cbn [repeated_lines]. now rewrite <- app_assoc.
    + lia.
    + reflexivity.
    + exact Hname.
    + exact Hsz.
    + nia.
    + nia.
Qed.

Lemma ReadAXML_repeats_last_chunk_witness :
  ReadAXML_loop 2
    {| l_reader := {| bytes.s := PutUint32 CHUNK_AXML_FILE ++ PutUint32 30
                                 ++ words [CHUNK_XML_TEXT; 8];
                      bytes.i := 16 |};
       l_axml := l_axml (entry [] 30);
       l_blocktype := CHUNK_XML_TEXT; l_size := 8; l_offset := 16;
       l_stdout := [ChunkLine "CHUNK_XML_TEXT" 8 8] |}
  = Some (Returned (l_axml (entry [] 30)) None,
          [ChunkLine "CHUNK_XML_TEXT" 8 8]
          ++ repeated_lines "CHUNK_XML_TEXT" 8 16 2).
Proof.
  apply (ReadAXML_repeats_last_chunk 2
           {| l_reader := {| bytes.s := PutUint32 CHUNK_AXML_FILE ++ PutUint32 30
                                        ++ words [CHUNK_XML_TEXT; 8];
                             bytes.i := 16 |};
              l_axml := l_axml (entry [] 30);
              l_blocktype := CHUNK_XML_TEXT; l_size := 8; l_offset := 16;
              l_stdout := [ChunkLine "CHUNK_XML_TEXT" 8 8] |}
           "CHUNK_XML_TEXT"%string).
  - simpl. lia.
  - reflexivity.
  - reflexivity.
  - simpl. lia.
  - simpl. lia.
  - simpl. lia.
Defined.

(** The whole call on such an input: one text chunk of 8 bytes in a
    document that declares 30. *)
Example cut_document_is_accepted :
  ReadAXML 3
    (bytes.NewReader (PutUint32 CHUNK_AXML_FILE ++ PutUint32 30
                      ++ words [CHUNK_XML_TEXT; 8]))
  = Some (Returned (l_axml (entry [] 30)) None,
          [ChunkLine "CHUNK_XML_TEXT" 8 8; ChunkLine "CHUNK_XML_TEXT" 16 8;
           ChunkLine "CHUNK_XML_TEXT" 24 8]).
Proof. vm_compute. reflexivity. Qed.
